(** * A model of the DigitalOcean provider of external-dns

    Source: [providers/digitalocean/digitalocean.go].

    The provider is a thin adapter between the canonical record model of
    external-dns ([utils.DnsRecord]) and the godo client of the DigitalOcean
    API.  Its methods have a pointer receiver, read the process environment,
    block on a token bucket and call the remote API.  They are embedded here
    as computations over an explicit state (the receiver, the environment and
    the remote side) that also emit the sequence of rate-limiter waits and
    remote calls they perform, each call together with what it returned.
    Calls to logrus only write log lines and are left out. *)

From Stdlib Require Import ZArith Ascii String List.
From stdpp Require Import base strings list gmap.

(** ** Go values *)

(** A Go [error] is modelled by its message, the text [Error()] returns. *)
Record error := errorString { Error : string }.

(** [fmt.Errorf] with its format already expanded. *)
Definition Errorf (msg : string) : error := errorString msg.

(** A Go pair [(value, err)]: either the value, or a non-nil [err]. *)
Inductive result (A : Type) : Type :=
| Ok (a : A)
| Err (e : error).
Arguments Ok {A} a.
Arguments Err {A} e.

(** Go's [int] on a 64-bit platform: two's complement wrap-around. *)
Definition wrap64 (z : Z) : Z := ((z + 2 ^ 63) mod 2 ^ 64 - 2 ^ 63)%Z.

(** ** The types of godo the provider touches

    Only the fields the provider reads or writes are kept. *)

Module Account.
Record t := mk { Email : string }.
End Account.

Module Domain.
Record t := mk { Name : string; TTL : Z }.
End Domain.

Module DomainRecord.
Record t := mk { ID : Z; Type_ : string; Name : string; Data : string }.
End DomainRecord.

Module DomainRecordEditRequest.
Record t := mk { Type_ : string; Name : string; Data : string }.
End DomainRecordEditRequest.

Module ListOptions.
Record t := mk { Page : Z; PerPage : Z }.
End ListOptions.

(** [godo.Links] is observed through two methods only; a value of it is
    represented by what [IsLastPage()] and [CurrentPage()] return on it. *)
Module Links.
Record t := mk { IsLastPage : bool; CurrentPage : result Z }.
End Links.

Module Response.
Record t := mk { Links : option Links.t }.
End Response.

(** The authenticated client: the oauth2 client built over [TokenSource]. *)
Record Client := NewClient { AccessToken : string }.

(** [ratelimit.Bucket]: the fill rate (tokens per second, kept as the exact
    fraction [rateNum / rateDen] of the float64 the source computes) and the
    capacity. *)
Record Bucket := NewBucketWithRate { rateNum : Z; rateDen : Z; capacity : Z }.

(** ** [utils.DnsRecord] *)

Module DnsRecord.
Record t := mk { Fqdn : string; Records : list string; Type_ : string; TTL : Z }.
End DnsRecord.

(** [utils.Fqdn] and [utils.UnFqdn] live in package [utils]; the provider is
    parametric in them. *)
Class Utils := {
  Fqdn : string → string;
  UnFqdn : string → string;
}.

(** ** The provider *)

Record DigitalOceanProvider := mkProvider {
  client : option Client;
  rootDomainName : string;
  TTL : Z;
  limiter : option Bucket;
}.

(** The zero value [&DigitalOceanProvider{}] that [init] registers. *)
Definition zeroProvider : DigitalOceanProvider :=
  {| client := None; rootDomainName := ""; TTL := 0; limiter := None |}.

Definition GetName : string := "DigitalOcean".

(** ** What a run does to the outside world *)

Inductive event : Type :=
| Wait (count : Z)
| AccountGet (r : result Account.t)
| DomainsGet (name : string) (r : result Domain.t)
| DomainsRecords (name : string) (opt : option ListOptions.t)
    (r : result (list DomainRecord.t * Response.t))
| DomainsCreateRecord (name : string) (req : DomainRecordEditRequest.t)
    (r : result DomainRecord.t)
| DomainsDeleteRecord (name : string) (id : Z) (r : option error).

(** A remote call, as opposed to a wait on the bucket. *)
Definition is_call (e : event) : bool :=
  match e with Wait _ => false | _ => true end.

Definition result_error {A} (r : result A) : option error :=
  match r with Ok _ => None | Err e => Some e end.

(** The error a remote call came back with, if it failed. *)
Definition failure (e : event) : option error :=
  match e with
  | Wait _ => None
  | AccountGet r => result_error r
  | DomainsGet _ r => result_error r
  | DomainsRecords _ _ r => result_error r
  | DomainsCreateRecord _ _ r => result_error r
  | DomainsDeleteRecord _ _ r => r
  end.

(** The remote API behind the godo client: any state machine answering the
    five endpoints the provider uses. *)
Class Backend (B : Type) := {
  account_get : Client → B → result Account.t * B;
  domains_get : Client → string → B → result Domain.t * B;
  domains_records : Client → string → option ListOptions.t → B →
                    result (list DomainRecord.t * Response.t) * B;
  domains_create_record : Client → string → DomainRecordEditRequest.t → B →
                          result DomainRecord.t * B;
  domains_delete_record : Client → string → Z → B → option error * B;
}.

(** How a computation ends: it returns, it panics (a nil pointer is
    dereferenced), or the step budget of a loop with no bound of its own is
    used up. *)
Inductive outcome (A : Type) : Type :=
| Done (a : A)
| Panic
| OutOfFuel.
Arguments Done {A} a.
Arguments Panic {A}.
Arguments OutOfFuel {A}.

Section Provider.
Context {U : Utils} {B : Type} {Bk : Backend B}.

Record State := mkState {
  p : DigitalOceanProvider;
  environ : gmap string string;
  remote : B;
}.

Definition M (A : Type) : Type := State → outcome A * State * list event.

#[global] Instance M_ret : MRet M := λ A a s, (Done a, s, []).

#[global] Instance M_bind : MBind M := λ A C f m s,
  match m s with
  | (Done a, s1, t1) => let '(o, s2, t2) := f a s1 in (o, s2, t1 ++ t2)
  | (Panic, s1, t1) => (Panic, s1, t1)
  | (OutOfFuel, s1, t1) => (OutOfFuel, s1, t1)
  end.

Definition out_of_fuel {A} : M A := λ s, (OutOfFuel, s, []).

(** Reads and writes of the receiver's fields. *)
Definition get {A} (f : DigitalOceanProvider → A) : M A :=
  λ s, (Done (f (p s)), s, []).

Definition modify (f : DigitalOceanProvider → DigitalOceanProvider) : M unit :=
  λ s, (Done tt, mkState (f (p s)) (environ s) (remote s), []).

Definition set_client (c : Client) : M unit :=
  modify (λ q, mkProvider (Some c) (rootDomainName q) (TTL q) (limiter q)).
Definition set_limiter (b : Bucket) : M unit :=
  modify (λ q, mkProvider (client q) (rootDomainName q) (TTL q) (Some b)).
Definition set_rootDomainName (n : string) : M unit :=
  modify (λ q, mkProvider (client q) n (TTL q) (limiter q)).
Definition set_TTL (ttl : Z) : M unit :=
  modify (λ q, mkProvider (client q) (rootDomainName q) ttl (limiter q)).

(** [os.Getenv]: the value of the variable, empty when it is not set. *)
Definition Getenv (key : string) : M string :=
  λ s, (Done (default "" (environ s !! key)), s, []).

(** [p.limiter.Wait(count)]: blocks until the tokens are there. Time is not
    modelled: the wait is recorded and returns. On a nil bucket the call
    dereferences nil. *)
Definition wait (count : Z) : M unit :=
  λ s, match limiter (p s) with
       | None => (Panic, s, [])
       | Some _ => (Done tt, s, [Wait count])
       end.

(** A call through [p.client]: nil client panics, otherwise the remote
    side answers and moves on, and the call is recorded with its answer. *)
Definition call {A} (f : Client → B → A * B) (ev : A → event) : M A :=
  λ s, match client (p s) with
       | None => (Panic, s, [])
       | Some c =>
           let '(a, b) := f c (remote s) in
           (Done a, mkState (p s) (environ s) b, [ev a])
       end.

Definition Account_Get : M (result Account.t) :=
  call account_get AccountGet.
Definition Domains_Get (name : string) : M (result Domain.t) :=
  call (λ c, domains_get c name) (DomainsGet name).
Definition Domains_Records (name : string) (opt : option ListOptions.t)
  : M (result (list DomainRecord.t * Response.t)) :=
  call (λ c, domains_records c name opt) (DomainsRecords name opt).
Definition Domains_CreateRecord (name : string) (req : DomainRecordEditRequest.t)
  : M (result DomainRecord.t) :=
  call (λ c, domains_create_record c name req) (DomainsCreateRecord name req).
Definition Domains_DeleteRecord (name : string) (id : Z) : M (option error) :=
  call (λ c, domains_delete_record c name id) (DomainsDeleteRecord name id).

(** [fmt.Errorf("%s API call has failed: %v", p.GetName(), err)] *)
Definition apiError (err : error) : error :=
  Errorf (GetName +:+ " API call has failed: " +:+ Error err).

(** *** Init *)

Definition Init (rootDomainName' : string) : M (option error) :=
  pat ← Getenv "DO_PAT";
  if (String.length pat =? 0)%nat then mret (Some (Errorf "DO_PAT is not set"))
  else
    set_client (NewClient pat);;
    (* DO's API is rate limited at 5000/hour. *)
    set_limiter (NewBucketWithRate 5000 3600 1);;
    set_rootDomainName (UnFqdn rootDomainName');;
    wait 1;;
    acct ← Account_Get;
    match acct with
    | Err err => mret (Some err)
    | Ok _ =>
        wait 1;;
        root ← get rootDomainName;
        domains ← Domains_Get root;
        match domains with
        | Err err => mret (Some err)
        | Ok domains =>
            (* DO's TTLs are domain-wide. *)
            set_TTL (Domain.TTL domains);;
            mret None
        end
    end.

(** *** HealthCheck *)

Definition HealthCheck : M (option error) :=
  wait 1;;
  root ← get rootDomainName;
  r ← Domains_Get root;
  mret (result_error r).

(** *** AddRecord *)

Fixpoint AddRecord_range (record : DnsRecord.t) (values : list string)
  : M (option error) :=
  match values with
  | [] => mret None
  | r :: values' =>
      let createRequest :=
        DomainRecordEditRequest.mk (DnsRecord.Type_ record)
          (DnsRecord.Fqdn record) r in
      wait 1;;
      root ← get rootDomainName;
      res ← Domains_CreateRecord root createRequest;
      match res with
      | Err err => mret (Some (apiError err))
      | Ok _ => AddRecord_range record values'
      end
  end.

Definition AddRecord (record : DnsRecord.t) : M (option error) :=
  AddRecord_range record (DnsRecord.Records record).

(** *** RemoveRecord *)

(** The loop over the listed rows. When it runs to its end the method
    returns the [err] of the listing, which is nil at that point. *)
Fixpoint RemoveRecord_range (record : DnsRecord.t)
    (records : list DomainRecord.t) : M (option error) :=
  match records with
  | [] => mret None
  | rec :: records' =>
      if (DomainRecord.Name rec =? DnsRecord.Fqdn record)%string
         && (DomainRecord.Type_ rec =? DnsRecord.Type_ record)%string
      then
        wait 1;;
        root ← get rootDomainName;
        err ← Domains_DeleteRecord root (DomainRecord.ID rec);
        match err with
        | Some err => mret (Some (apiError err))
        | None => RemoveRecord_range record records'
        end
      else RemoveRecord_range record records'
  end.

Definition RemoveRecord (record : DnsRecord.t) : M (option error) :=
  wait 1;;
  root ← get rootDomainName;
  res ← Domains_Records root None;
  match res with
  | Err err => mret (Some err)
  | Ok (records, _) => RemoveRecord_range record records
  end.

(** *** UpdateRecord *)

Definition UpdateRecord (record : DnsRecord.t) : M (option error) :=
  err ← RemoveRecord record;
  match err with
  | Some err => mret (Some err)
  | None => AddRecord record
  end.

(** *** GetRecords *)

(** The name a listed row stands for: ["@"] is the root domain itself, any
    other label is joined to the root domain with ["."]
    ([strings.Join(names, ".")] on two names). *)
Definition joinedName (root : string) (r : DomainRecord.t) : string :=
  if (DomainRecord.Name r =? "@")%string then root
  else DomainRecord.Name r +:+ "." +:+ root.

Definition rowFqdn (root : string) (r : DomainRecord.t) : string :=
  Fqdn (joinedName root r).

(** One iteration of the loop over the rows of a page.  [recordMap] is a Go
    map of maps; the inner map is shared with the outer entry, so a write
    to it is a write to the outer map's entry. *)
Definition addRow (root : string)
    (recordMap : gmap string (gmap string (list string)))
    (r : DomainRecord.t) : gmap string (gmap string (list string)) :=
  let fqdn := rowFqdn root r in
  match recordMap !! fqdn with
  | Some recordSet =>
      match recordSet !! DomainRecord.Type_ r with
      | Some recordSlice =>
          <[fqdn := <[DomainRecord.Type_ r := recordSlice ++ [DomainRecord.Data r]]> recordSet]> recordMap
      | None =>
          <[fqdn := <[DomainRecord.Type_ r := [DomainRecord.Data r]]> recordSet]> recordMap
      end
  | None =>
      <[fqdn := {[DomainRecord.Type_ r := [DomainRecord.Data r]]}]> recordMap
  end.

(** The paging loop.  Nothing in the source bounds the number of pages, so
    the loop takes a budget of iterations. *)
Fixpoint GetRecords_pages (fuel : nat) (opt : ListOptions.t)
    (recordMap : gmap string (gmap string (list string)))
  : M (result (gmap string (gmap string (list string)))) :=
  match fuel with
  | O => out_of_fuel
  | S fuel' =>
      wait 1;;
      root ← get rootDomainName;
      res ← Domains_Records root (Some opt);
      match res with
      | Err err => mret (Err (apiError err))
      | Ok (drecords, resp) =>
          let recordMap := foldl (addRow root) recordMap drecords in
          match Response.Links resp with
          | None => mret (Ok recordMap)
          | Some links =>
              if Links.IsLastPage links then mret (Ok recordMap)
              else
                match Links.CurrentPage links with
                | Err err => mret (Err (apiError err))
                | Ok page =>
                    GetRecords_pages fuel'
                      (ListOptions.mk (wrap64 (page + 1)) (ListOptions.PerPage opt))
                      recordMap
                end
          end
      end
  end.

(** The final loops over the map of maps.  Go iterates a map in an
    unspecified order; the order of [map_to_list] stands for it, and the
    properties below do not depend on it. *)
Definition dnsRecords (ttl : Z)
    (recordMap : gmap string (gmap string (list string))) : list DnsRecord.t :=
  '(fqdn, recordSet) ← map_to_list recordMap;
  '(recordType, recordSlice) ← map_to_list recordSet;
  [DnsRecord.mk fqdn recordSlice recordType ttl].

Definition GetRecords (fuel : nat) : M (result (list DnsRecord.t)) :=
  res ← GetRecords_pages fuel (ListOptions.mk 0 0) ∅;
  match res with
  | Err err => mret (Err err)
  | Ok recordMap =>
      ttl ← get TTL;
      mret (Ok (dnsRecords ttl recordMap))
  end.

End Provider.

(** ** Package [utils], as far as the specification describes it *)

(** Modelled from the spec: [utils.UnFqdn], whose source is in package
    [utils], not in this file.  The spec has Init normalise the domain name by
    stripping the trailing dot, leaving a name with no trailing separator. *)
Fixpoint specUnFqdn (hostname : string) : string :=
  match hostname with
  | EmptyString => EmptyString
  | String c rest =>
      match specUnFqdn rest with
      | EmptyString => if Ascii.eqb c "."%char then EmptyString else String c EmptyString
      | kept => String c kept
      end
  end.

(** Modelled from the spec: [utils.Fqdn], whose source is in package [utils],
    not in this file.  The spec takes the fully-qualified name of a row to be
    its label joined with the root domain (the root domain itself for the
    apex) and describes no further change to it, so the name is returned as it
    is. *)
Definition specFqdn (hostname : string) : string := hostname.

Definition specUtils : Utils := {| Fqdn := specFqdn; UnFqdn := specUnFqdn |}.

(** ** An in-memory remote side

    A zone held in memory, used to run the provider on concrete inputs: it
    answers listings page by page, refuses to delete the rows named in
    [locked], and numbers new rows from [nextID]. *)

Module Zone.

Record t := mk {
  account : result Account.t;
  domain : result Domain.t;
  rows : list DomainRecord.t;
  perPage : nat;                  (* 0: a listing is one page with no links *)
  locked : list (Z * error);      (* rows that cannot be deleted, and why *)
  createError : option error;     (* set: every create is refused *)
  nextID : Z;
}.

(** The page a listing asks for; godo sends no page number when the options
    are nil or the page is not positive, and the API answers with page 1. *)
Definition pageOf (opt : option ListOptions.t) : nat :=
  match opt with
  | None => 1
  | Some o => if (ListOptions.Page o <=? 0)%Z then 1 else Z.to_nat (ListOptions.Page o)
  end.

Definition list_records (z : t) (opt : option ListOptions.t)
  : result (list DomainRecord.t * Response.t) * t :=
  match perPage z with
  | O => (Ok (rows z, Response.mk None), z)
  | S _ =>
      let k := pageOf opt in
      let chunk := take (perPage z) (drop ((k - 1) * perPage z) (rows z)) in
      let last := bool_decide (length (rows z) ≤ k * perPage z) in
      (Ok (chunk, Response.mk (Some (Links.mk last (Ok (Z.of_nat k))))), z)
  end.

Definition create_record (z : t) (req : DomainRecordEditRequest.t)
  : result DomainRecord.t * t :=
  match createError z with
  | Some e => (Err e, z)
  | None =>
      let row := DomainRecord.mk (nextID z) (DomainRecordEditRequest.Type_ req)
                   (DomainRecordEditRequest.Name req) (DomainRecordEditRequest.Data req) in
      (Ok row, mk (account z) (domain z) (rows z ++ [row]) (perPage z) (locked z)
                  (createError z) (nextID z + 1))
  end.

Definition lockOf (z : t) (id : Z) : option error :=
  snd <$> List.find (λ l, (fst l =? id)%Z) (locked z).

Definition delete_record (z : t) (id : Z) : option error * t :=
  match lockOf z id with
  | Some e => (Some e, z)
  | None =>
      (None, mk (account z) (domain z)
                (List.filter (λ r, negb (DomainRecord.ID r =? id)%Z) (rows z))
                (perPage z) (locked z) (createError z) (nextID z))
  end.

#[global] Instance backend : Backend t := {|
  account_get _ z := (account z, z);
  domains_get _ _ z := (domain z, z);
  domains_records _ _ opt z := list_records z opt;
  domains_create_record _ _ req z := create_record z req;
  domains_delete_record _ _ id z := delete_record z id;
|}.

End Zone.

(** ** Sample states over the in-memory zone *)

Module Sample.

(** A provider after a successful Init for example.com. *)
Definition provider : DigitalOceanProvider :=
  mkProvider (Some (NewClient "token")) "example.com" 1800
    (Some (NewBucketWithRate 5000 3600 1)).

Definition zone (rows : list DomainRecord.t) (perPage : nat)
    (locked : list (Z * error)) : Zone.t :=
  Zone.mk (Ok (Account.mk "ops@example.com")) (Ok (Domain.mk "example.com" 1800))
    rows perPage locked None 100.

Definition ready (z : Zone.t) : @State Zone.t := mkState provider ∅ z.

(** A provider as registered, before Init, with no [DO_PAT] around. *)
Definition fresh (z : Zone.t) : @State Zone.t := mkState zeroProvider ∅ z.

(** Rows as the API lists them, with relative labels. *)
Definition www1 := DomainRecord.mk 1 "A" "www" "1.2.3.4".
Definition www2 := DomainRecord.mk 2 "A" "www" "5.6.7.8".
Definition apex := DomainRecord.mk 3 "A" "@" "9.9.9.9".
Definition alias := DomainRecord.mk 4 "CNAME" "www" "example.net".
Definition mail := DomainRecord.mk 5 "MX" "@" "mx.example.net".

(** Rows named by a full name, as AddRecord asks the API to create them. *)
Definition full1 := DomainRecord.mk 1 "A" "a.example.com" "1.1.1.1".
Definition full2 := DomainRecord.mk 2 "A" "a.example.com" "2.2.2.2".
Definition full3 := DomainRecord.mk 3 "A" "a.example.com" "3.3.3.3".

Definition locked2 : error := errorString "record 2 is locked".
Definition locked3 : error := errorString "record 3 is locked".
Definition unreachable : error := errorString "dial tcp: i/o timeout".

(** Three rows of one name and type, the last two of which cannot be
    deleted, and the record that names them. *)
Definition lockedZone : Zone.t :=
  zone [full1; full2; full3] 0 [(2%Z, locked2); (3%Z, locked3)].
Definition target : DnsRecord.t := DnsRecord.mk "a.example.com" [] "A" 1800.

(** Five rows, listed two to a page or all at once. *)
Definition five : list DomainRecord.t := [www1; www2; apex; alias; mail].
Definition paged : Zone.t := zone five 2 [].
Definition unpaged : Zone.t := zone five 0 [].
Definition grouped : list DnsRecord.t :=
  [DnsRecord.mk "www.example.com" ["example.net"] "CNAME" 1800;
   DnsRecord.mk "www.example.com" ["1.2.3.4"; "5.6.7.8"] "A" 1800;
   DnsRecord.mk "example.com" ["mx.example.net"] "MX" 1800;
   DnsRecord.mk "example.com" ["9.9.9.9"] "A" 1800].
Definition page (n : Z) (last : bool) : Response.t :=
  Response.mk (Some (Links.mk last (Ok n))).

(** A zone that holds one row and accepts no new one, before and after the
    row is removed, and a record with a new value for the row's name. *)
Definition quota : error := errorString "quota exceeded".
Definition full : Zone.t :=
  Zone.mk (Ok (Account.mk "ops@example.com")) (Ok (Domain.mk "example.com" 1800))
    [full1] 0 [] (Some quota) 100.
Definition emptied : Zone.t :=
  Zone.mk (Ok (Account.mk "ops@example.com")) (Ok (Domain.mk "example.com" 1800))
    [] 0 [] (Some quota) 100.
Definition renewed : DnsRecord.t := DnsRecord.mk "a.example.com" ["9.9.9.9"] "A" 1800.

(** A zone whose domain lookup fails. *)
Definition down : Zone.t :=
  Zone.mk (Ok (Account.mk "ops@example.com")) (Err unreachable) [] 0 [] None 100.

End Sample.

(** ** A scripted remote side

    A remote side that answers the [n]-th listing it is asked for with
    [listing n], whatever page is asked, and refuses everything else; used to
    run the paging loop on answers the in-memory zone never gives. *)

Module Script.

Record t := mk {
  listing : nat → result (list DomainRecord.t * Response.t);
  served : nat;
}.

Definition refused : error := errorString "not scripted".

#[global] Instance backend : Backend t := {|
  account_get _ z := (Err refused, z);
  domains_get _ _ z := (Err refused, z);
  domains_records _ _ _ z := (listing z (served z), mk (listing z) (S (served z)));
  domains_create_record _ _ _ z := (Err refused, z);
  domains_delete_record _ _ _ z := (Some refused, z);
|}.

End Script.


(** ** More sample states *)

Module Sample2.
Import Sample.

(** A provider as registered, with a credential in the environment. *)
Definition registered (z : Zone.t) : @State Zone.t :=
  mkState zeroProvider {["DO_PAT" := "token"]} z.

Definition bucket : Bucket := NewBucketWithRate 5000 3600 1.

(** A provider after Init, over the scripted remote side. *)
Definition scripted (z : Script.t) : @State Script.t := mkState provider ∅ z.

Definition unparsable : error := errorString "strconv.Atoi: parsing: invalid syntax".

(** Every listing announces more pages, with a current page that cannot be
    read, or with current page 1. *)
Definition brokenLinks : Script.t :=
  Script.mk (λ _, Ok ([www1], Response.mk (Some (Links.mk false (Err unparsable))))) 0.
Definition endless : Script.t :=
  Script.mk (λ _, Ok ([www1], Response.mk (Some (Links.mk false (Ok 1%Z))))) 0.

End Sample2.


(** ** Runs of the provider *)

Section Runs.
Context {U : Utils} {B : Type} {Bk : Backend B}.

(** The three components of a run. *)
Definition returned {A} (r : outcome A * @State B * list event) : outcome A := r.1.1.
Definition final {A} (r : outcome A * @State B * list event) : @State B := r.1.2.
Definition events {A} (r : outcome A * @State B * list event) : list event := r.2.

(** The calls of the provider contract, as the orchestrator issues them.
    GetRecords comes with the budget of its paging loop. *)
Inductive operation : Type :=
| OpInit (rootDomainName : string)
| OpHealthCheck
| OpGetRecords (fuel : nat)
| OpAddRecord (record : DnsRecord.t)
| OpUpdateRecord (record : DnsRecord.t)
| OpRemoveRecord (record : DnsRecord.t).

(** One operation, keeping of its result the error it returns. *)
Definition run (o : operation) : M (option error) :=
  match o with
  | OpInit root => Init root
  | OpHealthCheck => HealthCheck
  | OpGetRecords fuel => r ← GetRecords fuel; mret (result_error r)
  | OpAddRecord record => AddRecord record
  | OpUpdateRecord record => UpdateRecord record
  | OpRemoveRecord record => RemoveRecord record
  end.

(** A sequence of operations on one provider, whatever each returns; a panic
    ends the sequence. *)
Fixpoint run_all (ops : list operation) : M unit :=
  match ops with
  | [] => mret tt
  | o :: ops' => run o;; run_all ops'
  end.

(** Every remote call in [evs] comes right after a wait for one token. *)
Definition rate_limited (evs : list event) : Prop :=
  ∀ i c, evs !! i = Some c → is_call c = true →
         ∃ j, i = S j ∧ evs !! j = Some (Wait 1).

(** The same, as a check along the sequence; [armed] tells that the event
    just before was a wait for one token. *)
Fixpoint gated_from (armed : bool) (evs : list event) : bool :=
  match evs with
  | [] => true
  | Wait n :: evs' => gated_from (n =? 1)%Z evs'
  | _ :: evs' => armed && gated_from false evs'
  end.

(** The rows the listings recorded in [evs] returned, in order. *)
Definition listed (evs : list event) : list DomainRecord.t :=
  e ← evs;
  match e with
  | DomainsRecords _ _ (Ok (rows, _)) => rows
  | _ => []
  end.

Definition is_create (e : event) : bool :=
  match e with DomainsCreateRecord _ _ _ => true | _ => false end.

(** How the provider hands the error of a failed call [c] to its caller:
    lookups and the listing with nil options (the one RemoveRecord makes) pass
    it on as it is, the other calls put it in an [apiError]. *)
Definition surfaced (c : event) (e : error) : error :=
  match c with
  | Wait _ | AccountGet _ | DomainsGet _ _ | DomainsRecords _ None _ => e
  | DomainsRecords _ (Some _) _
  | DomainsCreateRecord _ _ _
  | DomainsDeleteRecord _ _ _ => apiError e
  end.

(** [Q] holds of the run of [m] from [s]. *)
Definition wp {A} (m : M A) (s : State)
    (Q : outcome A → State → list event → Prop) : Prop :=
  Q (returned (m s)) (final (m s)) (events (m s)).

(** The entry of the map of maps for a name and a type. *)
Definition lookup2 (recordMap : gmap string (gmap string (list string)))
    (fqdn type : string) : option (list string) :=
  recordMap !! fqdn ≫= λ recordSet, recordSet !! type.

(** The data of the rows of [rows] that stand for the name [fqdn] and have the
    type [type], in the order of [rows]. *)
Definition valuesOf (root fqdn type : string) (rows : list DomainRecord.t)
  : list string :=
  DomainRecord.Data <$>
    filter (λ r, rowFqdn root r = fqdn ∧ DomainRecord.Type_ r = type) rows.

(** The name and type of a canonical record. *)
Definition key (rec : DnsRecord.t) : string * string :=
  (DnsRecord.Fqdn rec, DnsRecord.Type_ rec).

(** A response that ends the paging loop. *)
Definition lastPage (resp : Response.t) : bool :=
  match Response.Links resp with
  | None => true
  | Some links => Links.IsLastPage links
  end.

(** The remote side in state [b] answers the listing of page [opt] with
    [rows] and [resp], and moves to [b']. *)
Definition answers (c : Client) (root : string) (b : B) (opt : ListOptions.t)
    (rows : list DomainRecord.t) (resp : Response.t) (b' : B) : Prop :=
  domains_records c root (Some opt) b = (Ok (rows, resp), b').

(** [resp] tells that more pages follow the page numbered [page]. *)
Definition morePages (resp : Response.t) (page : Z) : Prop :=
  ∃ links, Response.Links resp = Some links
           ∧ Links.IsLastPage links = false
           ∧ Links.CurrentPage links = Ok page.

(** A computation all of whose runs are gated. *)
Definition Gated {A} (m : M A) : Prop :=
  ∀ s, wp m s (λ _ _ t, gated_from false t = true).

(** [err] is what the run returned as its error ([None]: it did not return).
    A failed call in [t] is the last event of [t], and the run returned its
    error as [surfaced] gives it. *)
Definition fails_last (err : option (option error)) (t : list event) : Prop :=
  ∀ i c e, t !! i = Some c → failure c = Some e →
           err = Some (Some (surfaced c e)) ∧ length t = S i.

Definition error_of {A} (ret : A → option error) (o : outcome A)
  : option (option error) :=
  match o with Done a => Some (ret a) | _ => None end.

Definition Surfacing {A} (ret : A → option error) (m : M A) : Prop :=
  ∀ s, wp m s (λ o _ t, fails_last (error_of ret o) t).

(** The provider can make calls: both its client and its bucket are set. *)
Definition initialised (s : @State B) : Prop :=
  client (p s) ≠ None ∧ limiter (p s) ≠ None.

(** The domain an operation addresses: Init the one it is given, normalised;
    the others the one the receiver holds. *)
Definition domainOf (o : operation) (s : @State B) : string :=
  match o with
  | OpInit root => UnFqdn root
  | _ => rootDomainName (p s)
  end.

(** The events operation [o] may emit when it addresses the domain [root]:
    waits for one token, and the calls [o] is written to make, on [root]. *)
Definition permitted (o : operation) (root : string) (c : event) : bool :=
  match c, o with
  | Wait n, _ => (n =? 1)%Z
  | AccountGet _, OpInit _ => true
  | DomainsGet name _, (OpInit _ | OpHealthCheck) => (name =? root)%string
  | DomainsRecords name (Some _) _, OpGetRecords _ => (name =? root)%string
  | DomainsRecords name None _, (OpRemoveRecord _ | OpUpdateRecord _) =>
      (name =? root)%string
  | DomainsDeleteRecord name _ _, (OpRemoveRecord _ | OpUpdateRecord _) =>
      (name =? root)%string
  | DomainsCreateRecord name _ _, (OpAddRecord _ | OpUpdateRecord _) =>
      (name =? root)%string
  | _, _ => false
  end.

(** A run from [s] left the receiver and the environment as they were and
    emitted only events satisfying [P]. *)
Definition framed {A} (P : event → Prop) (s : @State B)
  : outcome A → @State B → list event → Prop :=
  λ _ s' t, p s' = p s ∧ environ s' = environ s ∧ Forall P t.


Definition deletes (evs : list event) : list Z :=
  e ← evs;
  match e with DomainsDeleteRecord _ id _ => [id] | _ => [] end.


(** The rows RemoveRecord takes to be rows of [record]. *)
Definition matching (record : DnsRecord.t) (rows : list DomainRecord.t)
  : list DomainRecord.t :=
  filter (λ row, DomainRecord.Name row = DnsRecord.Fqdn record
                 ∧ DomainRecord.Type_ row = DnsRecord.Type_ record) rows.



Definition is_listing (e : event) : bool :=
  match e with DomainsRecords _ _ _ => true | _ => false end.


(** The answer [res] to a listing makes GetRecords give up with the error
    [e]: the listing failed with [e], or it announced more pages and reading
    the number of the current page failed with [e]. *)
Definition stopsPaging (res : result (list DomainRecord.t * Response.t))
    (e : error) : Prop :=
  res = Err e
  ∨ ∃ rows resp links,
      res = Ok (rows, resp)
      ∧ Response.Links resp = Some links
      ∧ Links.IsLastPage links = false
      ∧ Links.CurrentPage links = Err e.


End Runs.

(** * Properties *)

Section Properties.
Context {U : Utils} {B : Type} {Bk : Backend B}.
Implicit Types (s : @State B) (evs : list event).
Local Abbreviation M := (@M B).

Lemma wp_ret {A} (a : A) s Q : Q (Done a) s [] → wp (mret a) s Q.
Proof. done. Qed.

Lemma wp_bind {A C} (m : M A) (f : A → M C) s Q :
  wp m s (λ o s1 t1,
    match o with
    | Done a => wp (f a) s1 (λ o2 s2 t2, Q o2 s2 (t1 ++ t2))
    | Panic => Q Panic s1 t1
    | OutOfFuel => Q OutOfFuel s1 t1
    end) →
  wp (m ≫= f) s Q.
Proof.
  unfold wp, returned, final, events, mbind, M_bind.
  destruct (m s) as [[[a| |] s1] t1]; simpl; [|done..].
  by destruct (f a s1) as [[o2 s2] t2].
Qed.

Lemma wp_mono {A} (m : M A) s (Q Q' : outcome A → State → list event → Prop) :
  wp m s Q → (∀ o s' t, Q o s' t → Q' o s' t) → wp m s Q'.
Proof. unfold wp. eauto. Qed.

Lemma wp_get {A} (f : DigitalOceanProvider → A) s Q :
  Q (Done (f (p s))) s [] → wp (get f) s Q.
Proof. done. Qed.

Lemma wp_modify f s Q :
  Q (Done tt) (mkState (f (p s)) (environ s) (remote s)) [] → wp (modify f) s Q.
Proof. done. Qed.

Lemma wp_wait n s Q :
  (limiter (p s) = None → Q Panic s []) →
  (limiter (p s) ≠ None → Q (Done tt) s [Wait n]) →
  wp (wait n) s Q.
Proof.
  unfold wp, wait. destruct (limiter (p s)); simpl; intros H1 H2; [by apply H2|by apply H1].
Qed.

Lemma wp_call {A} (f : Client → B → A * B) ev s Q :
  (client (p s) = None → Q Panic s []) →
  (∀ c, client (p s) = Some c →
        Q (Done (f c (remote s)).1)
          (mkState (p s) (environ s) (f c (remote s)).2)
          [ev (f c (remote s)).1]) →
  wp (call f ev) s Q.
Proof.
  unfold wp, call. destruct (client (p s)) as [c|]; simpl; intros H1 H2; [|by apply H1].
  specialize (H2 c eq_refl). by destruct (f c (remote s)).
Qed.

Lemma wp_Getenv key s Q :
  Q (Done (default "" (environ s !! key))) s [] → wp (Getenv key) s Q.
Proof. done. Qed.

Lemma wp_out_of_fuel {A} s (Q : outcome A → State → list event → Prop) :
  Q OutOfFuel s [] → wp out_of_fuel s Q.
Proof. done. Qed.

(** ** Init without a credential *)

(** C7. When [DO_PAT] is absent from the environment or set to the empty
    string, Init returns the error "DO_PAT is not set" (the configuration
    error), having done nothing: no wait on the bucket, no remote call, and
    the receiver, the environment and the remote side are as before. *)
Theorem Init_without_credential (rootDomainName' : string) s :
  environ s !! "DO_PAT" = None ∨ environ s !! "DO_PAT" = Some "" →
  Init rootDomainName' s = (Done (Some (Errorf "DO_PAT is not set")), s, []).
Proof.
  intros H. unfold Init, mbind, M_bind, Getenv.
  by destruct H as [-> | ->].
Qed.

(** ** AddRecord *)

(** C10. AddRecord of a record with no values returns nil at once: no wait, no
    remote call, nothing changed, in whatever state the provider is. *)
Theorem AddRecord_no_values (fqdn type : string) (ttl : Z) s :
  AddRecord (DnsRecord.mk fqdn [] type ttl) s = (Done None, s, []).
Proof. reflexivity. Qed.

(** ** Stepping through a run *)

Ltac wp_step :=
  first
    [ apply wp_ret
    | apply wp_out_of_fuel
    | apply wp_Getenv
    | apply wp_get
    | apply wp_modify
    | apply wp_wait; intros _
    | apply wp_call; [intros _ | intros ? _]
    | apply wp_bind ];
  cbn beta iota.

Ltac wp_steps := repeat wp_step.

(** ** The rate limiter gates every call *)

Lemma gated_from_weaken armed evs :
  gated_from false evs = true → gated_from armed evs = true.
Proof. destruct evs as [|[] evs]; simpl; try done. Qed.

Lemma gated_from_app armed evs1 evs2 :
  gated_from armed evs1 = true → gated_from false evs2 = true →
  gated_from armed (evs1 ++ evs2) = true.
Proof.
  revert armed. induction evs1 as [|e evs1 IH]; intros armed H1 H2; simpl.
  - by apply gated_from_weaken.
  - destruct e; simpl in *; try (apply andb_true_iff in H1 as [-> H1]; simpl); by apply IH.
Qed.

Lemma gated_from_rate_limited evs :
  gated_from false evs = true → rate_limited evs.
Proof.
  assert (G : ∀ evs armed prev,
             (armed = true → prev = Some (Wait 1)) →
             gated_from armed evs = true →
             ∀ i c, evs !! i = Some c → is_call c = true →
                    match i with
                    | O => prev = Some (Wait 1)
                    | S j => evs !! j = Some (Wait 1)
                    end).
  { clear evs. induction evs as [|e evs IH]; intros armed prev Hp Hg i c Hi Hc; [done|].
    destruct i as [|i]; simpl in Hi.
    - injection Hi as ->. destruct c; simpl in *; try done;
        apply andb_true_iff in Hg as [-> _]; by apply Hp.
    - assert (∃ armed', (armed' = true → e = Wait 1)
                        ∧ gated_from armed' evs = true) as (armed' & Ha & Hg').
      { destruct e as [n| | | | |]; simpl in Hg;
          try (apply andb_true_iff in Hg as [_ Hg]; exists false; by split).
        exists (n =? 1)%Z. split; [|done]. intros H. apply Z.eqb_eq in H. by subst. }
      specialize (IH armed' (Some e) (λ H, f_equal Some (Ha H)) Hg' i c Hi Hc).
      destruct i; simpl; [congruence|done]. }
  intros Hg i c Hi Hc. specialize (G evs false None (λ H, False_rect _ (Bool.diff_false_true H)) Hg i c Hi Hc).
  destruct i as [|j]; [done|]. eauto.
Qed.

Lemma Gated_bind {A C} (m : M A) (f : A → M C) :
  Gated m → (∀ a, Gated (f a)) → Gated (m ≫= f).
Proof.
  intros Hm Hf s. apply wp_bind. eapply wp_mono; [apply Hm|].
  intros [a| |] s1 t1 H1; simpl; try done.
  eapply wp_mono; [apply Hf|]. intros o2 s2 t2 H2. by apply gated_from_app.
Qed.

Lemma Gated_AddRecord_range record values : Gated (AddRecord_range record values).
Proof.
  induction values as [|r values IH]; intros s; simpl.
  - by wp_steps.
  - wp_steps; try done.
    destruct (domains_create_record _ _ _ _) as [[rec|err] b]; simpl.
    + eapply wp_mono; [apply IH|]. by intros.
    + by wp_steps.
Qed.

Lemma Gated_AddRecord record : Gated (AddRecord record).
Proof. apply Gated_AddRecord_range. Qed.

Lemma Gated_RemoveRecord_range record records :
  Gated (RemoveRecord_range record records).
Proof.
  induction records as [|rec records IH]; intros s; simpl.
  - by wp_steps.
  - destruct (_ && _); [|apply IH].
    wp_steps; try done.
    destruct (domains_delete_record _ _ _ _) as [[err|] b]; simpl.
    + by wp_steps.
    + eapply wp_mono; [apply IH|]. by intros.
Qed.

Lemma Gated_RemoveRecord record : Gated (RemoveRecord record).
Proof.
  intros s. unfold RemoveRecord. wp_steps; try done.
  destruct (domains_records _ _ _ _) as [[[records resp]|err] b]; simpl.
  - eapply wp_mono; [apply Gated_RemoveRecord_range|]. by intros.
  - by wp_steps.
Qed.

Lemma Gated_UpdateRecord record : Gated (UpdateRecord record).
Proof.
  apply Gated_bind; [apply Gated_RemoveRecord|].
  intros [err|]; [|apply Gated_AddRecord]. intros s. by wp_steps.
Qed.

Lemma Gated_HealthCheck : Gated HealthCheck.
Proof. intros s. unfold HealthCheck. by wp_steps. Qed.

Lemma Gated_Init rootDomainName' : Gated (Init rootDomainName').
Proof.
  intros s. unfold Init. do 2 wp_step.
  destruct (_ =? _)%nat; [by wp_steps|].
  unfold set_client, set_limiter, set_rootDomainName, set_TTL.
  wp_steps; try done.
  destruct (account_get _ _) as [[acct|err] b]; simpl; [|by wp_steps].
  wp_steps; try done.
  destruct (domains_get _ _ _) as [[domains|err] b']; simpl; by wp_steps.
Qed.

Lemma Gated_GetRecords_pages fuel opt recordMap :
  Gated (GetRecords_pages fuel opt recordMap).
Proof.
  revert opt recordMap. induction fuel as [|fuel IH]; intros opt recordMap s; simpl.
  - by wp_steps.
  - wp_steps; try done.
    destruct (domains_records _ _ _ _) as [[[drecords resp]|err] b]; simpl;
      [|by wp_steps].
    destruct (Response.Links resp) as [links|]; [|by wp_steps].
    destruct (Links.IsLastPage links); [by wp_steps|].
    destruct (Links.CurrentPage links) as [page|err]; [|by wp_steps].
    eapply wp_mono; [apply IH|]. by intros.
Qed.

Lemma Gated_GetRecords fuel : Gated (GetRecords fuel).
Proof.
  apply Gated_bind; [apply Gated_GetRecords_pages|].
  intros [recordMap|err] s; by wp_steps.
Qed.

Lemma Gated_run o : Gated (run o).
Proof.
  destruct o; simpl;
    auto using Gated_Init, Gated_HealthCheck, Gated_AddRecord,
      Gated_UpdateRecord, Gated_RemoveRecord.
  apply Gated_bind; [apply Gated_GetRecords|]. intros r s. by wp_steps.
Qed.

Lemma Gated_run_all ops : Gated (run_all ops).
Proof.
  induction ops as [|o ops IH]; simpl.
  - intros s. by wp_steps.
  - apply Gated_bind; [apply Gated_run|]. intros _. apply IH.
Qed.

(** C9. Whatever operations are called on a provider, in whatever order and
    from whatever state, every remote call made (account lookup, domain
    lookup, listing, create, delete; also those UpdateRecord makes through
    RemoveRecord and AddRecord) comes immediately after a wait for exactly one
    token on the provider's bucket. *)
Theorem every_call_waits_for_one_token (ops : list operation) s :
  rate_limited (events (run_all ops s)).
Proof. apply gated_from_rate_limited, (Gated_run_all ops s). Qed.

(** ** Failed calls end the operation and reach the caller *)

Lemma fails_last_nil err : fails_last err [].
Proof. by intros i c e Hi. Qed.

Lemma fails_last_skip err c t :
  failure c = None → fails_last err t → fails_last err (c :: t).
Proof.
  intros Hc Ht [|i] c' e Hi Hf; simpl in *; [congruence|].
  destruct (Ht i c' e Hi Hf) as [-> ->]. done.
Qed.

Lemma fails_last_one err c e :
  failure c = Some e → err = Some (Some (surfaced c e)) → fails_last err [c].
Proof. intros Hc -> [|i] c' e' Hi Hf; simpl in *; [|done]. by simplify_eq. Qed.

Lemma Surfacing_bind {A C} ret1 ret (m : M A) (f : A → M C) :
  Surfacing ret1 m →
  (∀ a, Surfacing ret (f a)) →
  (∀ a err s, ret1 a = Some err →
     error_of ret (returned (f a s)) = Some (Some err) ∧ events (f a s) = []) →
  Surfacing ret (m ≫= f).
Proof.
  intros Hm Hf Hpass s. apply wp_bind. eapply wp_mono; [apply Hm|].
  intros [a| |] s1 t1 H1; simpl; try done.
  unfold wp. intros i c e Hi Hc.
  destruct (decide (i < length t1)) as [Hlt|Hge].
  - rewrite lookup_app_l in Hi by done.
    destruct (H1 i c e Hi Hc) as [Hret Hlen]. simpl in Hret.
    destruct (Hpass a (surfaced c e) s1) as (He & Ht); [congruence|].
    rewrite Ht, app_nil_r. done.
  - rewrite lookup_app_r in Hi by lia.
    destruct (Hf a s1 _ _ _ Hi Hc) as [Hret Hlen].
    split; [done|]. rewrite length_app. lia.
Qed.

Ltac fails_last_tac :=
  simpl; repeat (apply fails_last_skip; [done|]);
  first [ apply fails_last_nil | by eapply fails_last_one | assumption ].

Lemma Surfacing_AddRecord_range record values :
  Surfacing id (AddRecord_range record values).
Proof.
  induction values as [|r values IH]; intros s; simpl.
  - wp_steps. apply fails_last_nil.
  - wp_steps; try apply fails_last_nil.
    + fails_last_tac.
    + destruct (domains_create_record _ _ _ _) as [[rec|err] b]; simpl.
      * eapply wp_mono; [apply IH|]. intros o s' t Ht. fails_last_tac.
      * wp_steps. fails_last_tac.
Qed.

Lemma Surfacing_RemoveRecord_range record records :
  Surfacing id (RemoveRecord_range record records).
Proof.
  induction records as [|rec records IH]; intros s; simpl.
  - wp_steps. apply fails_last_nil.
  - destruct (_ && _); [|apply IH].
    wp_steps; try apply fails_last_nil.
    + fails_last_tac.
    + destruct (domains_delete_record _ _ _ _) as [[err|] b]; simpl.
      * wp_steps. fails_last_tac.
      * eapply wp_mono; [apply IH|]. intros o s' t Ht. fails_last_tac.
Qed.

Lemma Surfacing_RemoveRecord record : Surfacing id (RemoveRecord record).
Proof.
  intros s. unfold RemoveRecord. wp_steps; try apply fails_last_nil.
  - fails_last_tac.
  - destruct (domains_records _ _ _ _) as [[[records resp]|err] b]; simpl.
    + eapply wp_mono; [apply Surfacing_RemoveRecord_range|].
      intros o s' t Ht. fails_last_tac.
    + wp_steps. fails_last_tac.
Qed.

Lemma Surfacing_UpdateRecord record : Surfacing id (UpdateRecord record).
Proof.
  apply (Surfacing_bind id id); [apply Surfacing_RemoveRecord| |].
  - intros [err|]; [|apply Surfacing_AddRecord_range].
    intros s. wp_steps. apply fails_last_nil.
  - by intros [err|] err' s [= ->].
Qed.

Lemma Surfacing_HealthCheck : Surfacing id HealthCheck.
Proof.
  intros s. unfold HealthCheck. wp_steps; try apply fails_last_nil.
  - fails_last_tac.
  - destruct (domains_get _ _ _) as [[domains|err] b]; simpl.
    + fails_last_tac.
    + fails_last_tac.
Qed.

Lemma Surfacing_Init rootDomainName' : Surfacing id (Init rootDomainName').
Proof.
  intros s. unfold Init. do 2 wp_step.
  destruct (_ =? _)%nat; [wp_steps; apply fails_last_nil|].
  unfold set_client, set_limiter, set_rootDomainName, set_TTL.
  wp_steps; try apply fails_last_nil; try fails_last_tac.
  destruct (account_get _ _) as [[acct|err] b]; simpl; [|wp_steps; fails_last_tac].
  wp_steps; try fails_last_tac.
  destruct (domains_get _ _ _) as [[domains|err] b']; simpl;
    wp_steps; fails_last_tac.
Qed.

Lemma Surfacing_GetRecords_pages fuel opt recordMap :
  Surfacing result_error (GetRecords_pages fuel opt recordMap).
Proof.
  revert opt recordMap. induction fuel as [|fuel IH]; intros opt recordMap s; simpl.
  - wp_steps. apply fails_last_nil.
  - wp_steps; try apply fails_last_nil; try fails_last_tac.
    destruct (domains_records _ _ _ _) as [[[drecords resp]|err] b]; simpl;
      [|wp_steps; fails_last_tac].
    destruct (Response.Links resp) as [links|];
      [|wp_steps; fails_last_tac].
    destruct (Links.IsLastPage links); [wp_steps; fails_last_tac|].
    destruct (Links.CurrentPage links) as [page|err];
      [|wp_steps; fails_last_tac].
    eapply wp_mono; [apply IH|]. intros o s' t Ht. fails_last_tac.
Qed.

Lemma Surfacing_GetRecords fuel : Surfacing result_error (GetRecords fuel).
Proof.
  apply (Surfacing_bind result_error result_error);
    [apply Surfacing_GetRecords_pages| |].
  - intros [recordMap|err] s; wp_steps; apply fails_last_nil.
  - by intros [recordMap|err] err' s [= ->].
Qed.

Lemma Surfacing_run o : Surfacing id (run o).
Proof.
  destruct o; simpl;
    auto using Surfacing_Init, Surfacing_HealthCheck, Surfacing_AddRecord_range,
      Surfacing_UpdateRecord, Surfacing_RemoveRecord.
  - apply (Surfacing_bind result_error id); [apply Surfacing_GetRecords| |].
    + intros r s. wp_steps. apply fails_last_nil.
    + by intros [r|err] err' s [= ->].
  - apply Surfacing_AddRecord_range.
Qed.

(** C8 (as amended). No failure of a remote call is swallowed: in every
    operation, a call that fails is the last thing the operation does, and the
    operation returns that call's error.  The error is put in an [apiError]
    (which names the provider) when the call is a create, a delete or a page
    listing of GetRecords; it is returned as it came, with no added context,
    when the call is the account lookup, the domain lookup (Init,
    HealthCheck) or the listing RemoveRecord makes. *)
Theorem failed_call_reaches_caller (o : operation) s i c e :
  events (run o s) !! i = Some c →
  failure c = Some e →
  returned (run o s) = Done (Some (surfaced c e))
  ∧ length (events (run o s)) = S i.
Proof.
  intros Hi Hc. destruct (Surfacing_run o s i c e Hi Hc) as [Hret Hlen].
  split; [|done]. destruct (returned (run o s)); simpl in Hret; by simplify_eq.
Qed.

(** ** RemoveRecord *)

Lemma RemoveRecord_range_no_create record records s :
  wp (RemoveRecord_range record records) s
     (λ _ _ t, Forall (λ c, is_create c = false) t).
Proof.
  revert s. induction records as [|rec records IH]; intros s; simpl.
  - by wp_steps.
  - destruct (_ && _); [|apply IH].
    wp_steps; try by repeat constructor.
    destruct (domains_delete_record _ _ _ _) as [[err|] b]; simpl.
    + wp_steps. by repeat constructor.
    + eapply wp_mono; [apply IH|]. intros o s' t Ht. simpl. by repeat constructor.
Qed.

Lemma RemoveRecord_no_create record s :
  Forall (λ c, is_create c = false) (events (RemoveRecord record s)).
Proof.
  change (wp (RemoveRecord record) s (λ _ _ t, Forall (λ c, is_create c = false) t)).
  unfold RemoveRecord. wp_steps; try by repeat constructor.
  destruct (domains_records _ _ _ _) as [[[records resp]|err] b]; simpl.
  - eapply wp_mono; [apply RemoveRecord_range_no_create|].
    intros o s' t Ht. simpl. by repeat constructor.
  - wp_steps. by repeat constructor.
Qed.

(** C1 (as amended). RemoveRecord stops at the first delete that fails: the
    failed delete is the last event of the run (no later row is looked at, no
    later delete is tried), and the error returned is that failure, in an
    [apiError].  The deletes made before it stay: the run makes no create
    call. *)
Theorem RemoveRecord_stops_at_failed_delete record s i name id e :
  events (RemoveRecord record s) !! i = Some (DomainsDeleteRecord name id (Some e)) →
  returned (RemoveRecord record s) = Done (Some (apiError e))
  ∧ length (events (RemoveRecord record s)) = S i
  ∧ Forall (λ c, is_create c = false) (events (RemoveRecord record s)).
Proof.
  intros Hi.
  destruct (Surfacing_RemoveRecord record s i _ e Hi eq_refl) as [Hret Hlen].
  split_and!; [|done|apply RemoveRecord_no_create].
  destruct (returned (RemoveRecord record s)); simpl in Hret; by simplify_eq.
Qed.

(** RemoveRecord deletes only rows of the listing whose name is the record's
    name and whose type is the record's type, character for character. *)
Lemma RemoveRecord_range_deletes_matches record records s :
  wp (RemoveRecord_range record records) s
     (λ _ _ t, ∀ name id r, DomainsDeleteRecord name id r ∈ t →
        ∃ row, row ∈ records ∧ DomainRecord.ID row = id
               ∧ DomainRecord.Name row = DnsRecord.Fqdn record
               ∧ DomainRecord.Type_ row = DnsRecord.Type_ record).
Proof.
  revert s. induction records as [|rec records IH]; intros s; simpl.
  - wp_steps. by intros name id r H%not_elem_of_nil.
  - destruct (_ && _) eqn:Hm.
    + apply andb_true_iff in Hm as [Hn%String.eqb_eq Ht%String.eqb_eq].
      assert (∀ t, (∀ name id r, DomainsDeleteRecord name id r ∈ t →
                      ∃ row, row ∈ records ∧ DomainRecord.ID row = id
                             ∧ DomainRecord.Name row = DnsRecord.Fqdn record
                             ∧ DomainRecord.Type_ row = DnsRecord.Type_ record) →
                   ∀ res name id r,
                     DomainsDeleteRecord name id r
                       ∈ Wait 1 :: DomainsDeleteRecord (rootDomainName (p s))
                                     (DomainRecord.ID rec) res :: t →
                     ∃ row, row ∈ rec :: records ∧ DomainRecord.ID row = id
                            ∧ DomainRecord.Name row = DnsRecord.Fqdn record
                            ∧ DomainRecord.Type_ row = DnsRecord.Type_ record) as Hstep.
      { intros t Ht' res name id r H.
        apply elem_of_cons in H as [H|H]; [done|].
        apply elem_of_cons in H as [H|H].
        - injection H as _ -> _. exists rec. split_and!; [left|..]; done.
        - destruct (Ht' name id r H) as (row & ? & ?). exists row. split; [by right|done]. }
      wp_steps; try by intros name id r H%not_elem_of_nil.
      * intros name id r H. simpl in H.
        apply elem_of_cons in H as [H|H]; [done|]. by apply not_elem_of_nil in H.
      * destruct (domains_delete_record _ _ _ _) as [[err|] b]; simpl.
        -- wp_steps. apply Hstep. by intros name id r H%not_elem_of_nil.
        -- eapply wp_mono; [apply IH|]. intros o s' t Ht'. by apply Hstep.
    + eapply wp_mono; [apply IH|]. intros o s' t Ht' name id r H.
      destruct (Ht' name id r H) as (row & ? & ?). exists row. split; [by right|done].
Qed.

(** X8. Every delete RemoveRecord asks for is the delete, by id, of a row of
    its listing whose name equals the record's name and whose type equals the
    record's type, both compared as they are (no case folding, no wildcard):
    a row of another name or another type is never deleted. *)
Lemma RemoveRecord_deletes_only_exact_matches record s name id r :
  DomainsDeleteRecord name id r ∈ events (RemoveRecord record s) →
  ∃ row, row ∈ listed (events (RemoveRecord record s))
         ∧ DomainRecord.ID row = id
         ∧ DomainRecord.Name row = DnsRecord.Fqdn record
         ∧ DomainRecord.Type_ row = DnsRecord.Type_ record.
Proof.
  revert name id r.
  change (wp (RemoveRecord record) s
            (λ _ _ t, ∀ name id r, DomainsDeleteRecord name id r ∈ t →
               ∃ row, row ∈ listed t ∧ DomainRecord.ID row = id
                      ∧ DomainRecord.Name row = DnsRecord.Fqdn record
                      ∧ DomainRecord.Type_ row = DnsRecord.Type_ record)).
  unfold RemoveRecord. wp_steps; try by intros name id r H%not_elem_of_nil.
  - intros name id r H. simpl in H.
    apply elem_of_cons in H as [H|H]; [done|]. by apply not_elem_of_nil in H.
  - destruct (domains_records _ _ _ _) as [[[records resp]|err] b]; simpl.
    + eapply wp_mono; [apply RemoveRecord_range_deletes_matches|].
      intros o s' t Ht name id r H.
      apply elem_of_cons in H as [H|H]; [done|].
      apply elem_of_cons in H as [H|H]; [done|].
      destruct (Ht name id r H) as (row & Hrow & ?). exists row. split; [|done].
      unfold listed. simpl. apply elem_of_app. by left.
    + wp_steps. intros name id r H. simpl in H.
      apply elem_of_cons in H as [H|H]; [done|].
      apply elem_of_cons in H as [H|H]; [done|]. by apply not_elem_of_nil in H.
Qed.

(** ** UpdateRecord *)

Lemma AddRecord_range_error record values s :
  wp (AddRecord_range record values) s
     (λ o _ t, ∀ err, o = Done (Some err) →
        ∃ t' name req e,
          t = t' ++ [DomainsCreateRecord name req (Err e)] ∧ err = apiError e).
Proof.
  revert s. induction values as [|r values IH]; intros s; simpl.
  - by wp_steps.
  - wp_steps; try done.
    destruct (domains_create_record _ _ _ _) as [[rec|err] b]; simpl.
    + eapply wp_mono; [apply IH|]. intros o s' t Ht err Ho.
      destruct (Ht err Ho) as (t' & name & req & e & -> & ->).
      by exists (Wait 1 :: DomainsCreateRecord (rootDomainName (p s))
                   (DomainRecordEditRequest.mk (DnsRecord.Type_ record)
                      (DnsRecord.Fqdn record) r) (Ok rec) :: t'), name, req, e.
    + wp_steps. intros err' [= <-].
      by exists [Wait 1], (rootDomainName (p s)),
        (DomainRecordEditRequest.mk (DnsRecord.Type_ record) (DnsRecord.Fqdn record) r), err.
Qed.

(** C6. UpdateRecord is RemoveRecord followed by AddRecord.  When RemoveRecord
    returns an error, UpdateRecord returns it from the same state after the
    same events, none of which is a create call.  When RemoveRecord returns
    nil, UpdateRecord continues with AddRecord from the state RemoveRecord
    left and returns what AddRecord returns; if that is an error, the failed
    create is the last event of the whole run, so nothing is done to bring
    back what was removed. *)
Theorem UpdateRecord_remove_then_add record s :
  match RemoveRecord record s with
  | (Done (Some err), s1, t1) =>
      UpdateRecord record s = (Done (Some err), s1, t1)
      ∧ Forall (λ c, is_create c = false) t1
  | (Done None, s1, t1) =>
      UpdateRecord record s
      = (returned (AddRecord record s1), final (AddRecord record s1),
         t1 ++ events (AddRecord record s1))
      ∧ ∀ err, returned (UpdateRecord record s) = Done (Some err) →
          ∃ t' name req e,
            events (UpdateRecord record s)
            = t1 ++ t' ++ [DomainsCreateRecord name req (Err e)]
            ∧ err = apiError e
  | (Panic, s1, t1) => UpdateRecord record s = (Panic, s1, t1)
  | (OutOfFuel, s1, t1) => UpdateRecord record s = (OutOfFuel, s1, t1)
  end.
Proof.
  pose proof (RemoveRecord_no_create record s) as Hnc.
  unfold UpdateRecord, mbind, M_bind.
  destruct (RemoveRecord record s) as [[[[err|]| |] s1] t1]; simpl in *; try done.
  - by rewrite app_nil_r.
  - pose proof (AddRecord_range_error record (DnsRecord.Records record) s1) as Ha.
    unfold wp in Ha. fold (AddRecord record) in Ha.
    destruct (AddRecord record s1) as [[o2 s2] t2]; simpl in *.
    split; [done|]. intros err Ho.
    destruct (Ha err Ho) as (t' & name & req & e & -> & ->). eauto 10.
Qed.

(** ** GetRecords: folding rows into the map of maps *)

Lemma addRow_lookup2 root recordMap r fqdn type :
  lookup2 (addRow root recordMap r) fqdn type =
  if decide (rowFqdn root r = fqdn ∧ DomainRecord.Type_ r = type)
  then Some (default [] (lookup2 recordMap fqdn type) ++ [DomainRecord.Data r])
  else lookup2 recordMap fqdn type.
Proof.
  unfold addRow, lookup2.
  destruct (decide (rowFqdn root r = fqdn)) as [<-|Hf].
  - destruct (recordMap !! rowFqdn root r) as [recordSet|] eqn:Hm; simpl.
    + destruct (recordSet !! DomainRecord.Type_ r) as [recordSlice|] eqn:Hs;
        rewrite lookup_insert_eq; simpl;
        (destruct (decide (DomainRecord.Type_ r = type)) as [<-|Ht];
         [rewrite decide_True by done; rewrite lookup_insert_eq, ?Hs; done
         |rewrite decide_False by tauto; by rewrite lookup_insert_ne]).
    + rewrite lookup_insert_eq; simpl.
      destruct (decide (DomainRecord.Type_ r = type)) as [<-|Ht].
      * rewrite decide_True by done. by rewrite lookup_singleton_eq.
      * rewrite decide_False by tauto. by rewrite lookup_singleton_ne.
  - rewrite decide_False by tauto.
    destruct (recordMap !! rowFqdn root r) as [recordSet|];
      [destruct (recordSet !! DomainRecord.Type_ r)|]; by rewrite lookup_insert_ne.
Qed.

Lemma foldl_addRow_lookup2 root rows recordMap fqdn type :
  lookup2 (foldl (addRow root) recordMap rows) fqdn type =
  match valuesOf root fqdn type rows with
  | [] => lookup2 recordMap fqdn type
  | values => Some (default [] (lookup2 recordMap fqdn type) ++ values)
  end.
Proof.
  revert recordMap. induction rows as [|r rows IH]; intros recordMap; [done|].
  simpl. rewrite IH, addRow_lookup2. unfold valuesOf. rewrite filter_cons.
  destruct (decide (rowFqdn root r = fqdn ∧ DomainRecord.Type_ r = type)) as [H|H];
    simpl.
  - change (list_fmap _ _ DomainRecord.Data ?l) with (DomainRecord.Data <$> l).
    destruct (DomainRecord.Data <$> filter _ rows); [done|].
    by rewrite <- app_assoc.
  - done.
Qed.

Lemma lookup2_aggregate root rows fqdn type :
  lookup2 (foldl (addRow root) ∅ rows) fqdn type =
  match valuesOf root fqdn type rows with
  | [] => None
  | values => Some values
  end.
Proof. rewrite foldl_addRow_lookup2. unfold lookup2. by rewrite lookup_empty. Qed.

(** ** GetRecords: the records built from the map of maps *)

Lemma elem_of_dnsRecords ttl recordMap rec :
  rec ∈ dnsRecords ttl recordMap ↔
  lookup2 recordMap (DnsRecord.Fqdn rec) (DnsRecord.Type_ rec)
    = Some (DnsRecord.Records rec)
  ∧ DnsRecord.TTL rec = ttl.
Proof.
  unfold dnsRecords, lookup2. rewrite list_elem_of_bind. split.
  - intros ([fqdn recordSet] & Hrec & Hm%elem_of_map_to_list).
    apply list_elem_of_bind in Hrec as ([type recordSlice] & Hrec & Hs%elem_of_map_to_list).
    apply list_elem_of_singleton in Hrec as ->. simpl. by rewrite Hm.
  - destruct rec as [fqdn recordSlice type ttl']. simpl. intros [Hl ->].
    destruct (recordMap !! fqdn) as [recordSet|] eqn:Hm; [simpl in Hl|done].
    exists (fqdn, recordSet). split; [|by apply elem_of_map_to_list].
    apply list_elem_of_bind. exists (type, recordSlice).
    split; [by apply list_elem_of_singleton|by apply elem_of_map_to_list].
Qed.



(** ** GetRecords: the run *)

Lemma listed_app evs1 evs2 : listed (evs1 ++ evs2) = listed evs1 ++ listed evs2.
Proof. apply bind_app. Qed.

Lemma GetRecords_pages_listed fuel opt recordMap s :
  wp (GetRecords_pages fuel opt recordMap) s
     (λ o s' t, p s' = p s ∧
        ∀ recordMap', o = Done (Ok recordMap') →
          recordMap' = foldl (addRow (rootDomainName (p s))) recordMap (listed t)).
Proof.
  revert opt recordMap s. induction fuel as [|fuel IH]; intros opt recordMap s; simpl.
  - by wp_steps.
  - wp_steps; try done.
    destruct (domains_records _ _ _ _) as [[[drecords resp]|err] b]; simpl;
      [|by wp_steps].
    assert (∀ recordMap',
              Done (Ok (foldl (addRow (rootDomainName (p s))) recordMap drecords))
                = @Done (result (gmap string (gmap string (list string)))) (Ok recordMap') →
              recordMap' = foldl (addRow (rootDomainName (p s))) recordMap
                             (listed ([Wait 1] ++ [] ++
                                [DomainsRecords (rootDomainName (p s)) (Some opt)
                                   (Ok (drecords, resp))] ++ []))) as Hlast.
    { intros recordMap' [= <-]. simpl. by rewrite app_nil_r. }
    destruct (Response.Links resp) as [links|]; [|by wp_steps].
    destruct (Links.IsLastPage links); [by wp_steps|].
    destruct (Links.CurrentPage links) as [page|err]; [|by wp_steps].
    eapply wp_mono; [apply IH|]. simpl. intros o s' t [Hp Hm]. split; [done|].
    intros recordMap' Ho. rewrite (Hm recordMap' Ho).
    unfold listed at 2. simpl. fold (listed t). by rewrite foldl_app.
Qed.

Lemma GetRecords_listed fuel s out :
  returned (GetRecords fuel s) = Done (Ok out) →
  out = dnsRecords (TTL (p s))
          (foldl (addRow (rootDomainName (p s))) ∅
             (listed (events (GetRecords fuel s)))).
Proof.
  pose proof (GetRecords_pages_listed fuel (ListOptions.mk 0 0) ∅ s) as H.
  unfold wp in H. unfold GetRecords, mbind, M_bind, returned, events.
  destruct (GetRecords_pages fuel _ _ s) as [[[[recordMap|err]| |] s1] t1];
    simpl in *; try done.
  unfold final, returned in H; simpl in H. destruct H as [Hp H].
  intros [= <-]. by rewrite app_nil_r, <- (H _ eq_refl), Hp.
Qed.

Lemma GetRecords_row_has_record fuel s out r :
  returned (GetRecords fuel s) = Done (Ok out) →
  r ∈ listed (events (GetRecords fuel s)) →
  ∃ rec, rec ∈ out
         ∧ key rec = (rowFqdn (rootDomainName (p s)) r, DomainRecord.Type_ r)
         ∧ DomainRecord.Data r ∈ DnsRecord.Records rec.
Proof.
  intros Hout Hr. rewrite (GetRecords_listed fuel s out Hout).
  set (rows := listed _) in *. set (root := rootDomainName _).
  assert (DomainRecord.Data r
            ∈ valuesOf root (rowFqdn root r) (DomainRecord.Type_ r) rows) as Hin.
  { apply list_elem_of_fmap_2, list_elem_of_filter. done. }
  exists (DnsRecord.mk (rowFqdn root r)
            (valuesOf root (rowFqdn root r) (DomainRecord.Type_ r) rows)
            (DomainRecord.Type_ r) (TTL (p s))).
  split_and!; [|done..]. apply elem_of_dnsRecords. simpl. split; [|done].
  rewrite lookup2_aggregate.
  destruct (valuesOf _ _ _ rows); [by apply not_elem_of_nil in Hin|done].
Qed.


(** ** GetRecords: paging *)

(** One turn of the paging loop on a page the remote side serves. *)
Lemma GetRecords_pages_step fuel opt recordMap s c drecords resp b :
  client (p s) = Some c →
  limiter (p s) ≠ None →
  answers c (rootDomainName (p s)) (remote s) opt drecords resp b →
  GetRecords_pages (S fuel) opt recordMap s =
  let root := rootDomainName (p s) in
  let recordMap' := foldl (addRow root) recordMap drecords in
  let s' := mkState (p s) (environ s) b in
  let fetch := [Wait 1; DomainsRecords root (Some opt) (Ok (drecords, resp))] in
  if lastPage resp then (Done (Ok recordMap'), s', fetch)
  else
    match Links.CurrentPage <$> Response.Links resp with
    | Some (Ok page) =>
        let r := GetRecords_pages fuel
                   (ListOptions.mk (wrap64 (page + 1)) (ListOptions.PerPage opt))
                   recordMap' s' in
        (returned r, final r, fetch ++ events r)
    | Some (Err err) => (Done (Err (apiError err)), s', fetch)
    | None => (Done (Ok recordMap'), s', fetch)
    end.
Proof.
  intros Hc Hl Ha. unfold answers in Ha.
  simpl. unfold mbind, M_bind, wait, get, Domains_Records, call, lastPage.
  destruct (limiter (p s)); [|done]. simpl. rewrite Hc, Ha. simpl.
  destruct (Response.Links resp) as [links|]; simpl; [|done].
  destruct (Links.IsLastPage links); [done|].
  destruct (Links.CurrentPage links) as [page|err]; [|done].
  by destruct (GetRecords_pages fuel _ _ _) as [[o s2] t2].
Qed.

(** C5. A listing the remote side serves in three pages gives the same
    records as the same rows served in one page (the two results are
    permutations of each other), and the three-page run consists of exactly
    three page fetches, each one right after a wait for one token. *)
Theorem GetRecords_three_pages (s3 s1 : State) c (fuel3 fuel1 : nat)
    rows1 rows2 rows3 resp1 resp2 resp3 resp page1 page2 b1 b2 b3 b :
  p s3 = p s1 →
  client (p s3) = Some c →
  limiter (p s3) ≠ None →
  answers c (rootDomainName (p s3)) (remote s3)
    (ListOptions.mk 0 0) rows1 resp1 b1 →
  morePages resp1 page1 →
  answers c (rootDomainName (p s3)) b1
    (ListOptions.mk (wrap64 (page1 + 1)) 0) rows2 resp2 b2 →
  morePages resp2 page2 →
  answers c (rootDomainName (p s3)) b2
    (ListOptions.mk (wrap64 (page2 + 1)) 0) rows3 resp3 b3 →
  lastPage resp3 = true →
  answers c (rootDomainName (p s3)) (remote s1)
    (ListOptions.mk 0 0) (rows1 ++ rows2 ++ rows3) resp b →
  lastPage resp = true →
  3 ≤ fuel3 →
  1 ≤ fuel1 →
  ∃ out3 out1,
    returned (GetRecords fuel3 s3) = Done (Ok out3)
    ∧ returned (GetRecords fuel1 s1) = Done (Ok out1)
    ∧ out3 ≡ₚ out1
    ∧ events (GetRecords fuel3 s3)
      = [Wait 1;
         DomainsRecords (rootDomainName (p s3)) (Some (ListOptions.mk 0 0))
           (Ok (rows1, resp1));
         Wait 1;
         DomainsRecords (rootDomainName (p s3))
           (Some (ListOptions.mk (wrap64 (page1 + 1)) 0)) (Ok (rows2, resp2));
         Wait 1;
         DomainsRecords (rootDomainName (p s3))
           (Some (ListOptions.mk (wrap64 (page2 + 1)) 0)) (Ok (rows3, resp3))].
Proof.
  intros Hp Hc Hl A1 (l1 & L1 & N1 & P1) A2 (l2 & L2 & N2 & P2) A3 Last3 A Last F3 F1.
  destruct fuel3 as [|[|[|fuel3]]]; [lia..|]. destruct fuel1 as [|fuel1]; [lia|].
  assert (lastPage resp1 = false) as M1 by (unfold lastPage; by rewrite L1).
  assert (lastPage resp2 = false) as M2 by (unfold lastPage; by rewrite L2).
  assert (∀ recordMap,
    GetRecords_pages (S (S (S fuel3))) (ListOptions.mk 0 0) recordMap s3 =
    (Done (Ok (foldl (addRow (rootDomainName (p s3))) recordMap
                 (rows1 ++ rows2 ++ rows3))),
     mkState (p s3) (environ s3) b3,
     [Wait 1;
      DomainsRecords (rootDomainName (p s3)) (Some (ListOptions.mk 0 0))
        (Ok (rows1, resp1));
      Wait 1;
      DomainsRecords (rootDomainName (p s3))
        (Some (ListOptions.mk (wrap64 (page1 + 1)) 0)) (Ok (rows2, resp2));
      Wait 1;
      DomainsRecords (rootDomainName (p s3))
        (Some (ListOptions.mk (wrap64 (page2 + 1)) 0)) (Ok (rows3, resp3))])) as Three.
  { intros recordMap.
    rewrite (GetRecords_pages_step _ _ _ s3 c rows1 resp1 b1 Hc Hl A1).
    cbv zeta. rewrite M1, L1. cbn [fmap option_fmap option_map]. rewrite P1.
    rewrite (GetRecords_pages_step _ _ _ (mkState (p s3) (environ s3) b1)
               c rows2 resp2 b2 Hc Hl A2).
    cbv zeta. rewrite M2, L2. cbn [fmap option_fmap option_map]. rewrite P2.
    cbn [p environ remote ListOptions.PerPage].
    rewrite (GetRecords_pages_step _ _ _ (mkState (p s3) (environ s3) b2)
               c rows3 resp3 b3 Hc Hl A3).
    cbv zeta. rewrite Last3. unfold returned, final, events.
    cbn [fst snd p environ remote app]. by rewrite !foldl_app. }
  assert (∀ recordMap,
    GetRecords_pages (S fuel1) (ListOptions.mk 0 0) recordMap s1 =
    (Done (Ok (foldl (addRow (rootDomainName (p s3))) recordMap
                 (rows1 ++ rows2 ++ rows3))),
     mkState (p s1) (environ s1) b,
     [Wait 1;
      DomainsRecords (rootDomainName (p s1)) (Some (ListOptions.mk 0 0))
        (Ok (rows1 ++ rows2 ++ rows3, resp))])) as One.
  { intros recordMap.
    rewrite (GetRecords_pages_step _ _ _ s1 c (rows1 ++ rows2 ++ rows3) resp b);
      [|by rewrite <- Hp..].
    cbv zeta. by rewrite Last, Hp. }
  exists (dnsRecords (TTL (p s3))
            (foldl (addRow (rootDomainName (p s3))) ∅ (rows1 ++ rows2 ++ rows3))).
  exists (dnsRecords (TTL (p s3))
            (foldl (addRow (rootDomainName (p s3))) ∅ (rows1 ++ rows2 ++ rows3))).
  unfold GetRecords, mbind, M_bind. rewrite Three, One.
  unfold returned, events, get, mret, M_ret. cbn [fst snd p]. by rewrite <- Hp.
Qed.

(** * Further properties of the provider *)

(** ** What each operation touches *)

Lemma framed_prefix {A} P s s1 (o : outcome A) s' pre t :
  framed P s1 o s' t → p s1 = p s → environ s1 = environ s → Forall P pre →
  framed P s o s' (pre ++ t).
Proof.
  intros (Hp & He & Ht) Hp1 He1 Hpre. unfold framed.
  split_and!; [congruence..|]. by apply Forall_app.
Qed.

Ltac framed_tac :=
  simpl; unfold framed; split_and!; [done|done|]; repeat constructor; auto.

Lemma framed_AddRecord_range (P : event → Prop) record values s :
  P (Wait 1) →
  (∀ req res, P (DomainsCreateRecord (rootDomainName (p s)) req res)) →
  wp (AddRecord_range record values) s (framed P s).
Proof.
  revert s. induction values as [|r values IH]; intros s Hw Hc; simpl.
  - wp_steps. framed_tac.
  - wp_steps; try framed_tac.
    destruct (domains_create_record _ _ _ _) as [[rec|err] b]; simpl.
    + eapply wp_mono; [apply IH; [done|apply Hc]|]. intros o s' t Ht.
      apply (framed_prefix P s _ o s' [_; _] t Ht); [done..|]. repeat constructor; auto.
    + wp_steps. framed_tac.
Qed.

Lemma framed_RemoveRecord_range (P : event → Prop) record records s :
  P (Wait 1) →
  (∀ id res, P (DomainsDeleteRecord (rootDomainName (p s)) id res)) →
  wp (RemoveRecord_range record records) s (framed P s).
Proof.
  revert s. induction records as [|rec records IH]; intros s Hw Hd; simpl.
  - wp_steps. framed_tac.
  - destruct (_ && _); [|by apply IH].
    wp_steps; try framed_tac.
    destruct (domains_delete_record _ _ _ _) as [[err|] b]; simpl.
    + wp_steps. framed_tac.
    + eapply wp_mono; [apply IH; [done|apply Hd]|]. intros o s' t Ht.
      apply (framed_prefix P s _ o s' [_; _] t Ht); [done..|]. repeat constructor; auto.
Qed.

Lemma framed_RemoveRecord (P : event → Prop) record s :
  P (Wait 1) →
  (∀ res, P (DomainsRecords (rootDomainName (p s)) None res)) →
  (∀ id res, P (DomainsDeleteRecord (rootDomainName (p s)) id res)) →
  wp (RemoveRecord record) s (framed P s).
Proof.
  intros Hw Hl Hd. unfold RemoveRecord. wp_steps; try framed_tac.
  destruct (domains_records _ _ _ _) as [[[records resp]|err] b] eqn:Hr; simpl.
  - eapply wp_mono; [apply framed_RemoveRecord_range; [done|apply Hd]|].
    intros o s' t Ht.
    apply (framed_prefix P s _ o s' [_; _] t Ht); [done..|]. repeat constructor; auto.
  - wp_steps. framed_tac.
Qed.

Lemma framed_UpdateRecord (P : event → Prop) record s :
  P (Wait 1) →
  (∀ res, P (DomainsRecords (rootDomainName (p s)) None res)) →
  (∀ id res, P (DomainsDeleteRecord (rootDomainName (p s)) id res)) →
  (∀ req res, P (DomainsCreateRecord (rootDomainName (p s)) req res)) →
  wp (UpdateRecord record) s (framed P s).
Proof.
  intros Hw Hl Hd Hc. unfold UpdateRecord. apply wp_bind.
  eapply wp_mono; [by apply framed_RemoveRecord|].
  intros [[err|]| |] s1 t1 (Hp & He & Ht); try done.
  - wp_steps. rewrite app_nil_r. done.
  - eapply wp_mono; [apply framed_AddRecord_range; [done|]|].
    + rewrite Hp. apply Hc.
    + intros o s' t H. by apply (framed_prefix P s s1).
Qed.

Lemma framed_HealthCheck (P : event → Prop) s :
  P (Wait 1) →
  (∀ res, P (DomainsGet (rootDomainName (p s)) res)) →
  wp HealthCheck s (framed P s).
Proof. intros Hw Hg. unfold HealthCheck. wp_steps; framed_tac. Qed.

Lemma framed_GetRecords_pages (P : event → Prop) fuel opt recordMap s :
  P (Wait 1) →
  (∀ opt res, P (DomainsRecords (rootDomainName (p s)) (Some opt) res)) →
  wp (GetRecords_pages fuel opt recordMap) s (framed P s).
Proof.
  revert opt recordMap s.
  induction fuel as [|fuel IH]; intros opt recordMap s Hw Hl; simpl.
  - wp_steps. framed_tac.
  - wp_steps; try framed_tac.
    destruct (domains_records _ _ _ _) as [[[drecords resp]|err] b]; simpl;
      [|wp_steps; framed_tac].
    destruct (Response.Links resp) as [links|]; [|wp_steps; framed_tac].
    destruct (Links.IsLastPage links); [wp_steps; framed_tac|].
    destruct (Links.CurrentPage links) as [page|err]; [|wp_steps; framed_tac].
    eapply wp_mono; [apply IH; [done|apply Hl]|]. intros o s' t Ht.
    apply (framed_prefix P s _ o s' [_; _] t Ht); [done..|]. repeat constructor; auto.
Qed.

Lemma framed_GetRecords (P : event → Prop) fuel s :
  P (Wait 1) →
  (∀ opt res, P (DomainsRecords (rootDomainName (p s)) (Some opt) res)) →
  wp (GetRecords fuel) s (framed P s).
Proof.
  intros Hw Hl. unfold GetRecords. apply wp_bind.
  eapply wp_mono; [by apply framed_GetRecords_pages|].
  intros [[recordMap|err]| |] s1 t1 H; try done; wp_steps; by rewrite !app_nil_r.
Qed.

(** Stepping that keeps what is known of a nil bucket or client, to rule the
    panic out where the receiver has them. *)
Ltac wp_step_set :=
  first
    [ apply wp_ret
    | apply wp_out_of_fuel
    | apply wp_Getenv
    | apply wp_get
    | apply wp_modify
    | apply wp_wait; [let H := fresh in intros H; try by simpl in H | intros _]
    | apply wp_call; [let H := fresh in intros H; try by simpl in H | intros ? _]
    | apply wp_bind ];
  cbn beta iota.

(** What Init does to the state and which events it emits, whatever it
    returns. *)
Lemma Init_effect (P : event → Prop) rootDomainName' s :
  P (Wait 1) →
  (∀ res, P (AccountGet res)) →
  (∀ res, P (DomainsGet (UnFqdn rootDomainName') res)) →
  wp (Init rootDomainName') s (λ o s' t,
    environ s' = environ s ∧ Forall P t ∧ o ≠ Panic ∧ o ≠ OutOfFuel ∧
    let pat := default "" (environ s !! "DO_PAT") in
    if (String.length pat =? 0)%nat then p s' = p s ∧ t = []
    else client (p s') = Some (NewClient pat)
         ∧ limiter (p s') = Some (NewBucketWithRate 5000 3600 1)
         ∧ rootDomainName (p s') = UnFqdn rootDomainName'
         ∧ (o ≠ Done None → TTL (p s') = TTL (p s))).
Proof.
  intros Hw Ha Hg. unfold Init. do 2 wp_step. cbv zeta.
  destruct (_ =? _)%nat; [wp_steps; by split_and!|].
  unfold set_client, set_limiter, set_rootDomainName, set_TTL.
  repeat wp_step_set.
  destruct (account_get _ _) as [[acct|err] b]; simpl;
    [|repeat wp_step_set; split_and!; by repeat constructor].
  repeat wp_step_set.
  destruct (domains_get _ _ _) as [[domains|err] b']; simpl;
    repeat wp_step_set; split_and!; by repeat constructor.
Qed.


Lemma run_framed o s :
  (∀ root, o ≠ OpInit root) →
  wp (run o) s (framed (λ c, permitted o (rootDomainName (p s)) c = true) s).
Proof.
  intros Hinit. destruct o as [root| |fuel|record|record|record]; simpl.
  - by destruct (Hinit root).
  - apply framed_HealthCheck; [done|]. intros res. apply String.eqb_refl.
  - apply wp_bind. eapply wp_mono.
    + apply (framed_GetRecords
               (λ c, permitted (OpGetRecords fuel) (rootDomainName (p s)) c = true));
        [done|]. intros opt res. apply String.eqb_refl.
    + intros [r| |] s1 t1 H; try done. wp_steps. by rewrite app_nil_r.
  - apply framed_AddRecord_range; [done|]. intros req res. apply String.eqb_refl.
  - apply framed_UpdateRecord; try done; intros; apply String.eqb_refl.
  - apply framed_RemoveRecord; try done; intros; apply String.eqb_refl.
Qed.

(** X1. No operation changes the environment, and no operation but Init
    writes a field of the receiver: after HealthCheck, GetRecords, AddRecord,
    UpdateRecord or RemoveRecord the client, root domain name, TTL and bucket
    are what they were, whatever the operation returned. *)
Theorem only_Init_writes_the_receiver (o : operation) s :
  environ (final (run o s)) = environ s
  ∧ ((∀ root, o ≠ OpInit root) → p (final (run o s)) = p s).
Proof.
  split.
  - destruct o as [root| | | | |];
      [by destruct (Init_effect (λ _, True) root s I (λ _, I) (λ _, I)) as [He _]|..];
      match goal with
      | |- context [run ?o s] =>
          by destruct (run_framed o s) as (_ & He & _)
      end.
  - intros Hinit. by destruct (run_framed o s Hinit) as (Hp & _).
Qed.

(** X2. An operation makes only the calls it is written to make, each on its
    own domain: Init the account lookup and the domain lookup; HealthCheck the
    domain lookup; GetRecords listings with page options; AddRecord creates;
    RemoveRecord one kind of listing (nil options) and deletes; UpdateRecord
    what RemoveRecord and AddRecord make.  In particular GetRecords and
    HealthCheck never create or delete, AddRecord never lists or deletes, and
    RemoveRecord never creates.  Every wait is for one token. *)
Theorem operations_make_only_their_calls (o : operation) s :
  Forall (λ c, permitted o (domainOf o s) c = true) (events (run o s)).
Proof.
  destruct o as [root| | | | |];
    [|match goal with
      | |- context [run ?o s] =>
          by destruct (run_framed o s) as (_ & _ & Hall)
      end..].
  simpl.
  destruct (Init_effect (λ c, permitted (OpInit root) (UnFqdn root) c = true) root s)
    as (_ & Hall & _); try done.
  intros res. apply String.eqb_refl.
Qed.


(** ** Init *)

(** X3. With a credential in [DO_PAT] and both lookups answered, Init returns
    nil after exactly two calls, each behind a wait for one token: the account
    lookup, then the lookup of the normalised domain name.  It leaves in the
    receiver a client built on the credential, a new bucket of rate 5000 per
    3600 seconds and capacity 1, the normalised domain name, and the TTL of
    the domain as the remote side gave it. *)
Theorem Init_stores_the_domain_TTL rootDomainName' s pat acct domains b1 b2 :
  environ s !! "DO_PAT" = Some pat →
  pat ≠ "" →
  account_get (NewClient pat) (remote s) = (Ok acct, b1) →
  domains_get (NewClient pat) (UnFqdn rootDomainName') b1 = (Ok domains, b2) →
  Init rootDomainName' s
  = (Done None,
     mkState (mkProvider (Some (NewClient pat)) (UnFqdn rootDomainName')
                (Domain.TTL domains) (Some (NewBucketWithRate 5000 3600 1)))
       (environ s) b2,
     [Wait 1; AccountGet (Ok acct);
      Wait 1; DomainsGet (UnFqdn rootDomainName') (Ok domains)]).
Proof.
  intros Henv Hpat Ha Hd.
  unfold Init, mbind, M_bind, Getenv. rewrite Henv. simpl.
  destruct pat as [|a pat]; [done|]. simpl.
  unfold Account_Get, Domains_Get, call. simpl. rewrite Ha. simpl. by rewrite Hd.
Qed.

(** X4. An Init that fails after the credential check (on the account lookup
    or on the domain lookup) has already replaced the client, the bucket and
    the root domain name of the receiver; only the TTL is left as it was. *)
Theorem failed_Init_leaves_client_and_bucket rootDomainName' s pat e :
  environ s !! "DO_PAT" = Some pat →
  pat ≠ "" →
  returned (Init rootDomainName' s) = Done (Some e) →
  client (p (final (Init rootDomainName' s))) = Some (NewClient pat)
  ∧ limiter (p (final (Init rootDomainName' s)))
    = Some (NewBucketWithRate 5000 3600 1)
  ∧ rootDomainName (p (final (Init rootDomainName' s))) = UnFqdn rootDomainName'
  ∧ TTL (p (final (Init rootDomainName' s))) = TTL (p s).
Proof.
  intros Henv Hpat Hret.
  destruct (Init_effect (λ _, True) rootDomainName' s I (λ _, I) (λ _, I))
    as (_ & _ & _ & _ & H).
  cbv zeta in H. rewrite Henv in H. simpl in H.
  destruct pat as [|a pat]; [done|]. simpl in H.
  destruct H as (Hc & Hl & Hr & Ht). split_and!; try done.
  apply Ht. by rewrite Hret.
Qed.

(** ** Panics *)

(** X5. On a receiver whose bucket is nil (as before any Init that got past
    the credential check) every operation that has a call to make panics at
    its first wait: no call is made and nothing is changed.  That is
    HealthCheck, RemoveRecord, UpdateRecord, GetRecords, and AddRecord of a
    record with at least one value. *)
Theorem nil_bucket_panics_before_any_call s :
  limiter (p s) = None →
  HealthCheck s = (Panic, s, [])
  ∧ (∀ record, RemoveRecord record s = (Panic, s, []))
  ∧ (∀ record, UpdateRecord record s = (Panic, s, []))
  ∧ (∀ fuel, GetRecords (S fuel) s = (Panic, s, []))
  ∧ (∀ record, DnsRecord.Records record ≠ [] → AddRecord record s = (Panic, s, [])).
Proof.
  intros Hl. split_and!; intros.
  - unfold HealthCheck, mbind, M_bind, wait. by rewrite Hl.
  - unfold RemoveRecord, mbind, M_bind, wait. by rewrite Hl.
  - unfold UpdateRecord, RemoveRecord, mbind, M_bind, wait. by rewrite Hl.
  - unfold GetRecords. simpl. unfold mbind, M_bind, wait. by rewrite Hl.
  - unfold AddRecord. destruct (DnsRecord.Records record); [done|].
    simpl. unfold mbind, M_bind, wait. by rewrite Hl.
Qed.


Lemma AddRecord_range_returns record values c root ttl l env b :
  wp (AddRecord_range record values)
     (mkState (mkProvider (Some c) root ttl (Some l)) env b)
     (λ o _ _, o ≠ Panic).
Proof.
  revert b. induction values as [|r values IH]; intros b; simpl.
  - by wp_steps.
  - repeat wp_step_set.
    destruct (domains_create_record _ _ _ _) as [[rec|err] b']; simpl.
    + eapply wp_mono; [apply IH|]. by intros.
    + by wp_steps.
Qed.

Lemma RemoveRecord_range_returns record records c root ttl l env b :
  wp (RemoveRecord_range record records)
     (mkState (mkProvider (Some c) root ttl (Some l)) env b)
     (λ o _ _, o ≠ Panic).
Proof.
  revert b. induction records as [|rec records IH]; intros b; simpl.
  - by wp_steps.
  - destruct (_ && _); [|apply IH].
    repeat wp_step_set.
    destruct (domains_delete_record _ _ _ _) as [[err|] b']; simpl.
    + by wp_steps.
    + eapply wp_mono; [apply IH|]. by intros.
Qed.

Lemma GetRecords_pages_returns fuel opt recordMap c root ttl l env b :
  wp (GetRecords_pages fuel opt recordMap)
     (mkState (mkProvider (Some c) root ttl (Some l)) env b)
     (λ o _ _, o ≠ Panic).
Proof.
  revert opt recordMap b. induction fuel as [|fuel IH]; intros opt recordMap b; simpl.
  - by wp_steps.
  - repeat wp_step_set.
    destruct (domains_records _ _ _ _) as [[[drecords resp]|err] b']; simpl;
      [|by wp_steps].
    destruct (Response.Links resp) as [links|]; [|by wp_steps].
    destruct (Links.IsLastPage links); [by wp_steps|].
    destruct (Links.CurrentPage links) as [page|err]; [|by wp_steps].
    eapply wp_mono; [apply IH|]. by intros.
Qed.

Lemma run_returns o s :
  initialised s →
  returned (run o s) ≠ Panic ∧ initialised (final (run o s)).
Proof.
  intros [Hc Hl]. split.
  - destruct o as [root| |fuel|record|record|record]; simpl.
    + by destruct (Init_effect (λ _, True) root s I (λ _, I) (λ _, I))
        as (_ & _ & Hp & _).
    + destruct s as [[[c|] root ttl [l|]] env b]; try done.
      change (wp HealthCheck (mkState (mkProvider (Some c) root ttl (Some l)) env b)
                (λ o _ _, o ≠ Panic)).
      unfold HealthCheck. by repeat wp_step_set.
    + destruct s as [[[c|] root ttl [l|]] env b]; try done.
      change (wp (r ← GetRecords fuel; mret (result_error r))
                (mkState (mkProvider (Some c) root ttl (Some l)) env b)
                (λ o _ _, o ≠ Panic)).
      apply wp_bind. unfold GetRecords. apply wp_bind.
      eapply wp_mono; [apply GetRecords_pages_returns|].
      intros [[recordMap|err]| |] s1 t1 H; try done; by wp_steps.
    + destruct s as [[[c|] root ttl [l|]] env b]; try done.
      apply AddRecord_range_returns.
    + destruct s as [[[c|] root ttl [l|]] env b]; try done.
      change (wp (UpdateRecord record)
                (mkState (mkProvider (Some c) root ttl (Some l)) env b)
                (λ o _ _, o ≠ Panic)).
      unfold UpdateRecord. apply wp_bind.
      pose proof (framed_RemoveRecord (λ _, True) record
                    (mkState (mkProvider (Some c) root ttl (Some l)) env b)
                    I (λ _, I) (λ _ _, I)) as Hf.
      assert (wp (RemoveRecord record)
                (mkState (mkProvider (Some c) root ttl (Some l)) env b)
                (λ o _ _, o ≠ Panic)) as Hr.
      { unfold RemoveRecord. repeat wp_step_set.
        destruct (domains_records _ _ _ _) as [[[records resp]|err] b']; simpl.
        - eapply wp_mono; [apply RemoveRecord_range_returns|]. by intros.
        - by wp_steps. }
      unfold wp, framed in *. destruct Hf as (Hp & _ & _).
      destruct (RemoveRecord record _) as [[[[err|]| |] s1] t1]; simpl in *; try done.
      destruct s1 as [p1 env1 b1]. simpl in Hp. subst p1.
      apply AddRecord_range_returns.
    + destruct s as [[[c|] root ttl [l|]] env b]; try done.
      change (wp (RemoveRecord record)
                (mkState (mkProvider (Some c) root ttl (Some l)) env b)
                (λ o _ _, o ≠ Panic)).
      unfold RemoveRecord. repeat wp_step_set.
      destruct (domains_records _ _ _ _) as [[[records resp]|err] b']; simpl.
      * eapply wp_mono; [apply RemoveRecord_range_returns|]. by intros.
      * by wp_steps.
  - destruct o as [root| | | | |];
      [|match goal with
        | |- context [run ?o s] =>
            destruct (run_framed o s) as (Hp & _); [done|];
            unfold initialised; by rewrite Hp
        end..].
    simpl.
    destruct (Init_effect (λ _, True) root s I (λ _, I) (λ _, I))
      as (_ & _ & _ & _ & H).
    cbv zeta in H. unfold initialised.
    destruct (_ =? _)%nat.
    + destruct H as [-> _]. done.
    + destruct H as (-> & -> & _). done.
Qed.

(** X6. Once the receiver has a client and a bucket, no operation panics,
    and every operation leaves it with a client and a bucket: a sequence of
    operations from such a state runs through, or stops only because the
    paging loop of a GetRecords does not end. *)
Theorem initialised_provider_never_panics (ops : list operation) s :
  initialised s →
  returned (run_all ops s) ≠ Panic ∧ initialised (final (run_all ops s)).
Proof.
  revert s. induction ops as [|o ops IH]; intros s Hs; [done|].
  destruct (run_returns o s Hs) as [Hret Hinit].
  simpl. unfold mbind, M_bind, returned, final in *.
  destruct (run o s) as [[[err| |] s1] t1]; simpl in *; try done.
  specialize (IH s1 Hinit).
  by destruct (run_all ops s1) as [[o2 s2] t2].
Qed.


(** ** AddRecord *)



(** ** RemoveRecord, further *)

Lemma matching_cons record row rows :
  matching record (row :: rows) =
  if (DomainRecord.Name row =? DnsRecord.Fqdn record)%string
     && (DomainRecord.Type_ row =? DnsRecord.Type_ record)%string
  then row :: matching record rows
  else matching record rows.
Proof.
  unfold matching. rewrite filter_cons.
  destruct (_ && _) eqn:Hm.
  - apply andb_true_iff in Hm as [Hn%String.eqb_eq Ht%String.eqb_eq].
    by rewrite decide_True.
  - rewrite decide_False; [done|]. intros [Hn%String.eqb_eq Ht%String.eqb_eq].
    by rewrite Hn, Ht in Hm.
Qed.

Lemma RemoveRecord_range_deletes record records s :
  wp (RemoveRecord_range record records) s
     (λ o _ t, Forall (λ c, is_listing c = false) t
               ∧ ∃ k, deletes t = take k (DomainRecord.ID <$> matching record records)
                      ∧ (o = Done None →
                         deletes t = DomainRecord.ID <$> matching record records)).
Proof.
  revert s. induction records as [|rec records IH]; intros s.
  - simpl. wp_steps. split; [done|]. by exists 0.
  - rewrite matching_cons. simpl. destruct (_ && _).
    + wp_steps.
      * split; [done|]. exists 0. by rewrite take_0.
      * split; [by repeat constructor|]. exists 0. by rewrite take_0.
      * destruct (domains_delete_record _ _ _ _) as [[err|] b]; simpl.
        -- wp_steps. split; [by repeat constructor|]. exists 1.
           split; [done|done].
        -- eapply wp_mono; [apply IH|]. intros o s' t (Hnl & k & Hk & Hall).
           split; [by repeat constructor|]. exists (S k). unfold deletes in *.
           simpl. split; [by rewrite Hk|]. intros Ho. by rewrite (Hall Ho).
    + apply IH.
Qed.

Lemma listed_no_listing evs :
  Forall (λ c, is_listing c = false) evs → listed evs = [].
Proof.
  induction 1 as [|c evs Hc _ IH]; [done|].
  change (c :: evs) with ([c] ++ evs). rewrite listed_app, IH. by destruct c.
Qed.

Lemma RemoveRecord_shape record s :
  wp (RemoveRecord record) s
     (λ o _ t,
        (t = [] ∨ t = [Wait 1]
         ∨ ∃ res t', t = Wait 1 :: DomainsRecords (rootDomainName (p s)) None res :: t'
                     ∧ Forall (λ c, is_listing c = false) t')
        ∧ ∃ k, deletes t = take k (DomainRecord.ID <$> matching record (listed t))
               ∧ (o = Done None →
                  deletes t = DomainRecord.ID <$> matching record (listed t))).
Proof.
  unfold RemoveRecord. wp_steps.
  - split; [by left|]. exists 0. by rewrite take_0.
  - split; [by right; left|]. exists 0. by rewrite take_0.
  - destruct (domains_records _ _ _ _) as [[[records resp]|err] b]; simpl.
    + eapply wp_mono; [apply RemoveRecord_range_deletes|].
      intros o s' t (Hnl & k & Hk & Hall). split; [right; right; eauto|].
      unfold listed. simpl. fold (listed t). rewrite (listed_no_listing t Hnl).
      rewrite app_nil_r. exists k. done.
    + wp_steps. split; [right; right; eauto|]. exists 0. by rewrite take_0.
Qed.

(** X9. RemoveRecord deletes the rows of its listing whose name and type are
    the record's, by id and in the order of the listing, and stops at the
    first delete that fails: the ids it asks to delete are a prefix of the ids
    of the matching rows, and all of them when RemoveRecord returns nil. *)
Theorem RemoveRecord_deletes_matches_in_order record s :
  ∃ k, deletes (events (RemoveRecord record s))
       = take k (DomainRecord.ID <$>
                   matching record (listed (events (RemoveRecord record s))))
       ∧ (returned (RemoveRecord record s) = Done None →
          deletes (events (RemoveRecord record s))
          = DomainRecord.ID <$>
              matching record (listed (events (RemoveRecord record s)))).
Proof. by destruct (RemoveRecord_shape record s) as [_ H]. Qed.

(** X10. RemoveRecord lists once: the only listing of a run is its first
    call, made with nil options on the receiver's domain.  Whatever the
    response says about further pages, no other page is asked for, so rows
    beyond the first page are never deleted. *)
Theorem RemoveRecord_lists_one_page record s i name opt res :
  events (RemoveRecord record s) !! i = Some (DomainsRecords name opt res) →
  i = 1 ∧ opt = None ∧ name = rootDomainName (p s).
Proof.
  destruct (RemoveRecord_shape record s) as [[->| [->|(r & t' & -> & Hnl)]] _].
  - done.
  - by destruct i as [|[|i]].
  - destruct i as [|[|i]]; simpl; [done|by intros [= <- <- <-]|].
    intros Hi. apply (proj1 (Forall_lookup _ _) Hnl) in Hi. done.
Qed.

(** ** UpdateRecord, further *)

(** X11. UpdateRecord of a record with no values is RemoveRecord of it: the
    same result, the same final state, the same calls. *)
Theorem UpdateRecord_without_values_only_removes (fqdn type : string) (ttl : Z) s :
  UpdateRecord (DnsRecord.mk fqdn [] type ttl) s
  = RemoveRecord (DnsRecord.mk fqdn [] type ttl) s.
Proof.
  unfold UpdateRecord, mbind, M_bind.
  destruct (RemoveRecord _ s) as [[[[err|]| |] s1] t1]; simpl; try done;
    by rewrite app_nil_r.
Qed.


(** ** GetRecords, further *)

(** One turn of the paging loop, from any state. *)
Lemma GetRecords_pages_unfold fuel opt recordMap s :
  GetRecords_pages (S fuel) opt recordMap s =
  match limiter (p s), client (p s) with
  | None, _ => (Panic, s, [])
  | Some _, None => (Panic, s, [Wait 1])
  | Some _, Some c =>
      let root := rootDomainName (p s) in
      let res := (domains_records c root (Some opt) (remote s)).1 in
      let s' := mkState (p s) (environ s)
                  (domains_records c root (Some opt) (remote s)).2 in
      let fetch := [Wait 1; DomainsRecords root (Some opt) res] in
      match res with
      | Err err => (Done (Err (apiError err)), s', fetch)
      | Ok (drecords, resp) =>
          let recordMap' := foldl (addRow root) recordMap drecords in
          match Response.Links resp with
          | None => (Done (Ok recordMap'), s', fetch)
          | Some links =>
              if Links.IsLastPage links then (Done (Ok recordMap'), s', fetch)
              else
                match Links.CurrentPage links with
                | Err err => (Done (Err (apiError err)), s', fetch)
                | Ok page =>
                    let r := GetRecords_pages fuel
                               (ListOptions.mk (wrap64 (page + 1))
                                  (ListOptions.PerPage opt))
                               recordMap' s' in
                    (returned r, final r, fetch ++ events r)
                end
          end
      end
  end.
Proof.
  simpl. unfold mbind, M_bind, wait, get, Domains_Records, call.
  destruct (limiter (p s)) as [l|]; [|done]. simpl.
  destruct (client (p s)) as [c|]; [|done]. simpl.
  destruct (domains_records _ _ _ _) as [[[drecords resp]|err] b]; simpl; [|done].
  destruct (Response.Links resp) as [links|]; simpl; [|done].
  destruct (Links.IsLastPage links); [done|].
  destruct (Links.CurrentPage links) as [page|err]; [|done].
  by destruct (GetRecords_pages fuel _ _ _) as [[o s2] t2].
Qed.

Lemma GetRecords_pages_error fuel opt recordMap s :
  wp (GetRecords_pages fuel opt recordMap) s
     (λ o _ t, ∀ e, o = Done (Err e) →
        ∃ e0 t' name opt' res,
          e = apiError e0
          ∧ t = t' ++ [DomainsRecords name opt' res]
          ∧ stopsPaging res e0).
Proof.
  revert opt recordMap s. induction fuel as [|fuel IH]; intros opt recordMap s; simpl.
  - by wp_steps.
  - wp_steps; try done.
    destruct (domains_records _ _ _ _) as [[[drecords resp]|err] b]; simpl.
    + destruct (Response.Links resp) as [links|] eqn:Hl; [|by wp_steps].
      destruct (Links.IsLastPage links) eqn:Hn; [by wp_steps|].
      destruct (Links.CurrentPage links) as [page|err] eqn:Hp.
      * eapply wp_mono; [apply IH|]. intros o s' t Ht e Ho.
        destruct (Ht e Ho) as (e0 & t' & name & opt' & res & -> & -> & Hs).
        exists e0, (Wait 1 :: DomainsRecords (rootDomainName (p s)) (Some opt)
                      (Ok (drecords, resp)) :: t'), name, opt', res. done.
      * wp_steps. intros e [= <-].
        exists err, [Wait 1], (rootDomainName (p s)), (Some opt), (Ok (drecords, resp)).
        split_and!; [done..|]. right. by exists drecords, resp, links.
    + wp_steps. intros e [= <-].
      exists err, [Wait 1], (rootDomainName (p s)), (Some opt), (Err err).
      split_and!; [done..|]. by left.
Qed.

(** X12. When GetRecords returns an error it returns no records, the error is
    an [apiError], and it comes from the last call of the run: either that
    listing failed, or it announced more pages and the number of the current
    page could not be read from its links (a failure of no remote call). *)
Theorem GetRecords_error_comes_from_last_listing fuel s e :
  returned (GetRecords fuel s) = Done (Err e) →
  ∃ e0 t' name opt res,
    e = apiError e0
    ∧ events (GetRecords fuel s) = t' ++ [DomainsRecords name opt res]
    ∧ stopsPaging res e0.
Proof.
  pose proof (GetRecords_pages_error fuel (ListOptions.mk 0 0) ∅ s) as H.
  unfold wp, returned, events in *. unfold GetRecords, mbind, M_bind.
  destruct (GetRecords_pages fuel _ _ s) as [[[[recordMap|err]| |] s1] t1];
    simpl in *; try done.
  intros [= <-]. rewrite app_nil_r. by apply H.
Qed.

(** X13. What GetRecords returns is determined by the rows it was served, in
    order, the root domain name and the TTL of the receiver: two runs that
    list the same sequence of rows, however the rows are cut into pages and
    whatever the remote side is, return the same records, up to order. *)
Theorem GetRecords_depends_on_listed_rows_only
    (fuel1 fuel2 : nat) (s1 s2 : State) out1 out2 :
  returned (GetRecords fuel1 s1) = Done (Ok out1) →
  returned (GetRecords fuel2 s2) = Done (Ok out2) →
  rootDomainName (p s1) = rootDomainName (p s2) →
  TTL (p s1) = TTL (p s2) →
  listed (events (GetRecords fuel1 s1)) = listed (events (GetRecords fuel2 s2)) →
  out1 ≡ₚ out2.
Proof.
  intros H1 H2 Hroot Httl Hrows.
  rewrite (GetRecords_listed fuel1 s1 out1 H1), (GetRecords_listed fuel2 s2 out2 H2).
  by rewrite Hroot, Httl, Hrows.
Qed.



Lemma GetRecords_pages_endless (Inv : B → Prop) fuel :
  (∀ c root opt b, Inv b →
     ∃ rows links page b',
       domains_records c root (Some opt) b = (Ok (rows, Response.mk (Some links)), b')
       ∧ Links.IsLastPage links = false
       ∧ Links.CurrentPage links = Ok page
       ∧ Inv b') →
  ∀ opt recordMap s,
    initialised s → Inv (remote s) →
    returned (GetRecords_pages fuel opt recordMap s) = OutOfFuel
    ∧ length (events (GetRecords_pages fuel opt recordMap s)) = 2 * fuel.
Proof.
  intros Hmore. induction fuel as [|fuel IH]; intros opt recordMap s [Hc Hl] Hinv;
    [done|].
  rewrite GetRecords_pages_unfold.
  destruct (limiter (p s)) as [l|] eqn:El; [|done].
  destruct (client (p s)) as [c|] eqn:Ec; [|done].
  destruct (Hmore c (rootDomainName (p s)) opt (remote s) Hinv)
    as (rows & links & page & b' & Hr & Hn & Hp & Hinv').
  cbv zeta. rewrite Hr. simpl. rewrite Hn, Hp.
  destruct (IH (ListOptions.mk (wrap64 (page + 1)) (ListOptions.PerPage opt))
              (foldl (addRow (rootDomainName (p s))) recordMap rows)
              (mkState (p s) (environ s) b')) as [Hret Hlen];
    [split; simpl; congruence|done|].
  unfold returned, events in *. simpl. split; [done|]. rewrite Hlen. lia.
Qed.

(** X15. Nothing bounds the number of pages GetRecords asks for: against a
    remote side that answers every listing with more pages to come (here:
    from every state satisfying [Inv], staying in [Inv]), an initialised
    provider uses up any budget, with one fetch per unit of budget, and
    returns nothing. *)
Theorem GetRecords_pages_as_long_as_told (Inv : B → Prop) (fuel : nat) s :
  (∀ c root opt b, Inv b →
     ∃ rows links page b',
       domains_records c root (Some opt) b = (Ok (rows, Response.mk (Some links)), b')
       ∧ Links.IsLastPage links = false
       ∧ Links.CurrentPage links = Ok page
       ∧ Inv b') →
  initialised s →
  Inv (remote s) →
  returned (GetRecords fuel s) = OutOfFuel
  ∧ length (events (GetRecords fuel s)) = 2 * fuel.
Proof.
  intros Hmore Hs Hinv.
  destruct (GetRecords_pages_endless Inv fuel Hmore (ListOptions.mk 0 0) ∅ s Hs Hinv)
    as [Hret Hlen].
  unfold GetRecords, mbind, M_bind, returned, events in *.
  by destruct (GetRecords_pages fuel _ _ s) as [[[[recordMap|err]| |] s1] t1].
Qed.



(** ** Names of rows *)

Lemma string_length_app (s1 s2 : string) :
  String.length (s1 +:+ s2) = String.length s1 + String.length s2.
Proof. induction s1 as [|a s1 IH]; simpl; [done|]. by rewrite IH. Qed.

Lemma string_app_inj_r (s1 s2 t : string) : s1 +:+ t = s2 +:+ t → s1 = s2.
Proof.
  revert s2. induction s1 as [|a s1 IH]; intros [|a2 s2] H; simpl in *.
  - done.
  - apply (f_equal String.length) in H.
    rewrite !string_length_app in H. simpl in H. lia.
  - apply (f_equal String.length) in H.
    rewrite !string_length_app in H. simpl in H. lia.
  - injection H as -> H. by rewrite (IH s2 H).
Qed.

(** X17. The name GetRecords forms for a row, before [utils.Fqdn] is applied,
    tells the label of the row: two rows of one root domain get the same
    joined name only if they have the same label.  In particular the apex
    marker "@" shares its name with no other label. *)
Theorem joinedName_tells_the_label (root : string) (r1 r2 : DomainRecord.t) :
  joinedName root r1 = joinedName root r2 →
  DomainRecord.Name r1 = DomainRecord.Name r2.
Proof.
  unfold joinedName.
  destruct (DomainRecord.Name r1 =? "@")%string eqn:H1;
    destruct (DomainRecord.Name r2 =? "@")%string eqn:H2; intros H.
  - apply String.eqb_eq in H1, H2. congruence.
  - apply (f_equal String.length) in H. rewrite !string_length_app in H.
    simpl in H. lia.
  - apply (f_equal String.length) in H. rewrite !string_length_app in H.
    simpl in H. lia.
  - by apply string_app_inj_r in H.
Qed.


(** X18. GetRecords returns an empty collection exactly when the pages it
    was served hold no row at all. *)
Theorem GetRecords_empty_iff_no_rows fuel s out :
  returned (GetRecords fuel s) = Done (Ok out) →
  out = [] ↔ listed (events (GetRecords fuel s)) = [].
Proof.
  intros Hout. split.
  - intros ->. destruct (listed _) as [|row rows] eqn:Hrows; [done|].
    destruct (GetRecords_row_has_record fuel s [] row Hout) as (rec & Hin & _).
    + rewrite Hrows. left.
    + by apply not_elem_of_nil in Hin.
  - intros Hrows. rewrite (GetRecords_listed fuel s out Hout), Hrows. done.
Qed.

Lemma GetRecords_pages_requests fuel opt recordMap s :
  wp (GetRecords_pages fuel opt recordMap) s
     (λ _ _ t, ∀ i name opt' res,
        t !! i = Some (DomainsRecords name opt' res) →
        ∃ page, opt' = Some (ListOptions.mk page (ListOptions.PerPage opt))
                ∧ (i = 1 → page = ListOptions.Page opt)).
Proof.
  revert opt recordMap s. induction fuel as [|fuel IH]; intros opt recordMap s; simpl.
  - by wp_steps.
  - assert (∀ res t,
              (∀ i name opt' res',
                 t !! i = Some (DomainsRecords name opt' res') →
                 ∃ page, opt' = Some (ListOptions.mk page (ListOptions.PerPage opt))) →
              ∀ i name opt' res',
                (Wait 1 :: DomainsRecords (rootDomainName (p s)) (Some opt) res :: t) !! i
                  = Some (DomainsRecords name opt' res') →
                ∃ page, opt' = Some (ListOptions.mk page (ListOptions.PerPage opt))
                        ∧ (i = 1 → page = ListOptions.Page opt)) as Hstep.
    { intros res t Ht [|[|i]] name opt' res' Hi; simpl in Hi.
      - done.
      - injection Hi as _ <- _. exists (ListOptions.Page opt). by destruct opt.
      - destruct (Ht i name opt' res' Hi) as [page ->]. exists page. split; [done|lia]. }
    wp_steps.
    + by intros [|i].
    + by intros [|[|i]].
    + destruct (domains_records _ _ _ _) as [[[drecords resp]|err] b]; simpl;
        [|wp_steps; apply Hstep; by intros [|i]].
      destruct (Response.Links resp) as [links|];
        [|wp_steps; apply Hstep; by intros [|i]].
      destruct (Links.IsLastPage links); [wp_steps; apply Hstep; by intros [|i]|].
      destruct (Links.CurrentPage links) as [page|err];
        [|wp_steps; apply Hstep; by intros [|i]].
      eapply wp_mono; [apply IH|]. intros o s' t Ht. apply Hstep.
      intros i name opt' res' Hi. destruct (Ht i name opt' res' Hi) as (pg & -> & _).
      by exists pg.
Qed.

(** X19. GetRecords asks for pages by number only: every listing it makes
    carries options with the page size left at zero (the API's default), and
    the first listing of a run asks for page number zero. *)
Theorem GetRecords_never_sets_the_page_size fuel s i name opt res :
  events (GetRecords fuel s) !! i = Some (DomainsRecords name opt res) →
  ∃ page, opt = Some (ListOptions.mk page 0) ∧ (i = 1 → page = 0%Z).
Proof.
  pose proof (GetRecords_pages_requests fuel (ListOptions.mk 0 0) ∅ s) as H.
  unfold wp, events in *. unfold GetRecords, mbind, M_bind.
  destruct (GetRecords_pages fuel _ _ s) as [[[[recordMap|err]| |] s1] t1];
    simpl in *; rewrite ?app_nil_r; apply H.
Qed.


End Properties.

(** * Names under the specification's reading of package [utils] *)

Section SpecNames.
Context {B : Type} {Bk : Backend B}.
Local Existing Instance specUtils.


End SpecNames.

(** * Concrete runs *)

Section Concrete.
Local Existing Instance specUtils.
Import Sample.

(** *** Init *)

Lemma Init_without_credential_witness :
  Init "example.com." (fresh unpaged)
  = (Done (Some (Errorf "DO_PAT is not set")), fresh unpaged, []).
Proof. apply Init_without_credential. left. reflexivity. Defined.

(** *** Errors *)

(** C8, as stated, fails on HealthCheck: the domain lookup fails with
    "dial tcp: i/o timeout", and HealthCheck returns that very error, not an
    [apiError] around it; the text returned does not name the provider. *)
Lemma HealthCheck_returns_bare_error :
  events (run OpHealthCheck (ready down))
    = [Wait 1; DomainsGet "example.com" (Err unreachable)]
  ∧ returned (run OpHealthCheck (ready down)) = Done (Some unreachable)
  ∧ returned (run OpHealthCheck (ready down)) ≠ Done (Some (apiError unreachable))
  ∧ Error unreachable = "dial tcp: i/o timeout".
Proof. split_and!; [reflexivity..|discriminate|reflexivity]. Qed.

Lemma failed_call_reaches_caller_witness :
  returned (run OpHealthCheck (ready down)) = Done (Some unreachable)
  ∧ length (events (run OpHealthCheck (ready down))) = 2.
Proof.
  apply (failed_call_reaches_caller OpHealthCheck (ready down) 1
           (DomainsGet "example.com" (Err unreachable)) unreachable);
    reflexivity.
Defined.

(** *** RemoveRecord *)

(** C1, as stated, fails on three matching rows of which the second and
    third cannot be deleted: the run ends with the failed delete of row 2 and
    returns its error; row 3, which matches too, is never tried, and the error
    of its lock is not what is returned. *)
Lemma RemoveRecord_does_not_continue :
  full3 ∈ listed (events (RemoveRecord target (ready lockedZone)))
  ∧ DomainRecord.Name full3 = DnsRecord.Fqdn target
  ∧ DomainRecord.Type_ full3 = DnsRecord.Type_ target
  ∧ Zone.lockOf lockedZone (DomainRecord.ID full3) = Some locked3
  ∧ ¬ (∃ name r, DomainsDeleteRecord name (DomainRecord.ID full3) r
                   ∈ events (RemoveRecord target (ready lockedZone)))
  ∧ returned (RemoveRecord target (ready lockedZone)) = Done (Some (apiError locked2))
  ∧ Zone.rows (remote (final (RemoveRecord target (ready lockedZone))))
    = [full2; full3].
Proof.
  split_and!; try reflexivity.
  - vm_compute. set_solver.
  - intros (name & r & H). vm_compute in H.
    repeat (apply elem_of_cons in H as [H|H]; [discriminate H|]).
    by apply not_elem_of_nil in H.
Qed.

Lemma RemoveRecord_stops_at_failed_delete_witness :
  returned (RemoveRecord target (ready lockedZone)) = Done (Some (apiError locked2))
  ∧ length (events (RemoveRecord target (ready lockedZone))) = 6
  ∧ Forall (λ c, is_create c = false)
      (events (RemoveRecord target (ready lockedZone))).
Proof.
  apply (RemoveRecord_stops_at_failed_delete target (ready lockedZone) 5
           "example.com" 2 locked2).
  reflexivity.
Defined.

(** C2, at a row listed with its relative label: the row [www] of type A
    stands for www.example.com, the record to remove is www.example.com of
    type A, and RemoveRecord lists the row but deletes nothing, because it
    compares the label itself with the record's name. *)
Theorem RemoveRecord_misses_relative_label :
  joinedName "example.com" www1 = "www.example.com"
  ∧ rowFqdn "example.com" www1 = "www.example.com"
  ∧ RemoveRecord (DnsRecord.mk "www.example.com" ["1.2.3.4"] "A" 1800)
      (ready (zone [www1] 0 []))
    = (Done None, ready (zone [www1] 0 []),
       [Wait 1;
        DomainsRecords "example.com" None (Ok ([www1], Response.mk None))]).
Proof. split_and!; reflexivity. Qed.

(** *** GetRecords *)



Lemma GetRecords_three_pages_witness :
  ∃ out3 out1,
    returned (GetRecords 3 (ready paged)) = Done (Ok out3)
    ∧ returned (GetRecords 1 (ready unpaged)) = Done (Ok out1)
    ∧ out3 ≡ₚ out1
    ∧ events (GetRecords 3 (ready paged))
      = [Wait 1;
         DomainsRecords "example.com" (Some (ListOptions.mk 0 0))
           (Ok ([www1; www2], page 1 false));
         Wait 1;
         DomainsRecords "example.com" (Some (ListOptions.mk 2 0))
           (Ok ([apex; alias], page 2 false));
         Wait 1;
         DomainsRecords "example.com" (Some (ListOptions.mk 3 0))
           (Ok ([mail], page 3 true))].
Proof.
  apply (GetRecords_three_pages (ready paged) (ready unpaged) (NewClient "token")
           3 1 [www1; www2] [apex; alias] [mail]
           (page 1 false) (page 2 false) (page 3 true) (Response.mk None)
           1 2 paged paged paged unpaged).
  - reflexivity.
  - reflexivity.
  - discriminate.
  - reflexivity.
  - exists (Links.mk false (Ok 1%Z)). split_and!; reflexivity.
  - reflexivity.
  - exists (Links.mk false (Ok 2%Z)). split_and!; reflexivity.
  - reflexivity.
  - reflexivity.
  - reflexivity.
  - reflexivity.
  - lia.
  - lia.
Defined.

(** *** UpdateRecord and sequences of operations *)

Lemma UpdateRecord_remove_then_add_witness :
  UpdateRecord renewed (ready full)
  = (returned (AddRecord renewed (ready emptied)),
     final (AddRecord renewed (ready emptied)),
     [Wait 1;
      DomainsRecords "example.com" None (Ok ([full1], Response.mk None));
      Wait 1;
      DomainsDeleteRecord "example.com" 1 None]
     ++ events (AddRecord renewed (ready emptied)))
  ∧ ∀ err, returned (UpdateRecord renewed (ready full)) = Done (Some err) →
      ∃ t' name req e,
        events (UpdateRecord renewed (ready full))
        = [Wait 1;
           DomainsRecords "example.com" None (Ok ([full1], Response.mk None));
           Wait 1;
           DomainsDeleteRecord "example.com" 1 None]
          ++ t' ++ [DomainsCreateRecord name req (Err e)]
        ∧ err = apiError e.
Proof. exact (UpdateRecord_remove_then_add renewed (ready full)). Defined.

Lemma every_call_waits_for_one_token_witness :
  ∃ j, 3 = S j
       ∧ events (run_all [OpInit "example.com."; OpUpdateRecord renewed]
                   (mkState zeroProvider {["DO_PAT" := "token"]} full))
           !! j = Some (Wait 1).
Proof.
  apply (every_call_waits_for_one_token
           [OpInit "example.com."; OpUpdateRecord renewed]
           (mkState zeroProvider {["DO_PAT" := "token"]} full) 3
           (DomainsGet "example.com" (Ok (Domain.mk "example.com" 1800))));
    reflexivity.
Defined.

(** *** Further properties, on sample states *)

Import Sample2.

Lemma Init_stores_the_domain_TTL_witness :
  Init "example.com." (registered unpaged)
  = (Done None,
     mkState (mkProvider (Some (NewClient "token")) "example.com" 1800 (Some bucket))
       {["DO_PAT" := "token"]} unpaged,
     [Wait 1; AccountGet (Ok (Account.mk "ops@example.com"));
      Wait 1; DomainsGet "example.com" (Ok (Domain.mk "example.com" 1800))]).
Proof.
  refine (Init_stores_the_domain_TTL "example.com." (registered unpaged) "token"
            (Account.mk "ops@example.com") (Domain.mk "example.com" 1800)
            unpaged unpaged _ _ _ _); [reflexivity|discriminate|reflexivity|reflexivity].
Defined.

Lemma failed_Init_leaves_client_and_bucket_witness :
  client (p (final (Init "example.com." (registered down)))) = Some (NewClient "token")
  ∧ limiter (p (final (Init "example.com." (registered down)))) = Some bucket
  ∧ rootDomainName (p (final (Init "example.com." (registered down)))) = "example.com"
  ∧ TTL (p (final (Init "example.com." (registered down)))) = 0%Z.
Proof.
  refine (failed_Init_leaves_client_and_bucket "example.com." (registered down)
            "token" unreachable _ _ _); [reflexivity|discriminate|reflexivity].
Defined.

Lemma nil_bucket_panics_before_any_call_witness :
  HealthCheck (fresh unpaged) = (Panic, fresh unpaged, [])
  ∧ (∀ record, RemoveRecord record (fresh unpaged) = (Panic, fresh unpaged, []))
  ∧ (∀ record, UpdateRecord record (fresh unpaged) = (Panic, fresh unpaged, []))
  ∧ (∀ fuel, GetRecords (S fuel) (fresh unpaged) = (Panic, fresh unpaged, []))
  ∧ (∀ record, DnsRecord.Records record ≠ [] →
               AddRecord record (fresh unpaged) = (Panic, fresh unpaged, [])).
Proof. apply (nil_bucket_panics_before_any_call (fresh unpaged)). reflexivity. Defined.

Lemma initialised_provider_never_panics_witness :
  returned (run_all [OpUpdateRecord renewed; OpGetRecords 3; OpHealthCheck] (ready full))
    ≠ Panic
  ∧ initialised
      (final (run_all [OpUpdateRecord renewed; OpGetRecords 3; OpHealthCheck]
                (ready full))).
Proof.
  apply (initialised_provider_never_panics
           [OpUpdateRecord renewed; OpGetRecords 3; OpHealthCheck] (ready full)).
  split; discriminate.
Defined.

Lemma RemoveRecord_deletes_only_exact_matches_witness :
  ∃ row, row ∈ listed (events (RemoveRecord target (ready lockedZone)))
         ∧ DomainRecord.ID row = 1%Z
         ∧ DomainRecord.Name row = DnsRecord.Fqdn target
         ∧ DomainRecord.Type_ row = DnsRecord.Type_ target.
Proof.
  apply (RemoveRecord_deletes_only_exact_matches target (ready lockedZone)
           "example.com" 1 None).
  vm_compute. set_solver.
Defined.

Lemma RemoveRecord_lists_one_page_witness :
  1 = 1 ∧ @None ListOptions.t = None
  ∧ "example.com" = rootDomainName (p (ready paged)).
Proof.
  apply (RemoveRecord_lists_one_page target (ready paged) 1 "example.com" None
           (Ok ([www1; www2], page 1 false))).
  reflexivity.
Defined.

Lemma GetRecords_error_comes_from_last_listing_witness :
  ∃ e0 t' name opt res,
    apiError unparsable = apiError e0
    ∧ events (GetRecords 2 (scripted brokenLinks)) = t' ++ [DomainsRecords name opt res]
    ∧ stopsPaging res e0.
Proof.
  apply (GetRecords_error_comes_from_last_listing 2 (scripted brokenLinks)
           (apiError unparsable)).
  reflexivity.
Defined.

Lemma GetRecords_depends_on_listed_rows_only_witness : grouped ≡ₚ grouped.
Proof.
  apply (GetRecords_depends_on_listed_rows_only 3 1 (ready paged) (ready unpaged)
           grouped grouped); reflexivity.
Defined.


Lemma GetRecords_pages_as_long_as_told_witness :
  returned (GetRecords 4 (scripted endless)) = OutOfFuel
  ∧ length (events (GetRecords 4 (scripted endless))) = 2 * 4.
Proof.
  apply (GetRecords_pages_as_long_as_told
           (λ b, Script.listing b = Script.listing endless) 4 (scripted endless)).
  - intros c root opt b Hb.
    exists [www1], (Links.mk false (Ok 1%Z)), 1%Z,
      (Script.mk (Script.listing b) (S (Script.served b))).
    simpl. rewrite Hb. split_and!; reflexivity.
  - split; discriminate.
  - reflexivity.
Defined.


Lemma joinedName_tells_the_label_witness :
  DomainRecord.Name www1 = DomainRecord.Name www2.
Proof.
  apply (joinedName_tells_the_label "example.com" www1 www2). reflexivity.
Defined.


Lemma GetRecords_empty_iff_no_rows_witness :
  @nil DnsRecord.t = [] ↔ listed (events (GetRecords 1 (ready emptied))) = [].
Proof. apply (GetRecords_empty_iff_no_rows 1 (ready emptied) []). reflexivity. Defined.

Lemma GetRecords_never_sets_the_page_size_witness :
  ∃ pg, Some (ListOptions.mk 2 0) = Some (ListOptions.mk pg 0) ∧ (3 = 1 → pg = 0%Z).
Proof.
  apply (GetRecords_never_sets_the_page_size 3 (ready paged) 3 "example.com"
           (Some (ListOptions.mk 2 0)) (Ok ([apex; alias], page 2 false))).
  reflexivity.
Defined.


End Concrete.
